(** * Bookstore REST API (gin + gorm): a shallow embedding of the handlers

    The development follows the program's layout:
    - [models/book.go]        the [Book] record;
    - [models/setup.go]       [ConnectDatabase];
    - [controllers/books.go]  the five handlers and their input schemas;
    - [main.go]               the route table.

    The handlers talk to two collaborators that are not part of the
    program: the JSON binder of the web framework and the query builder of
    the ORM over an SQL table.  Both are modelled below, as far as the
    handlers exercise them.  The storage is a table of rows together with
    the auto-increment counter; every storage call is recorded in a log and
    may fail, as decided by a list of fault flags carried by the world.
    Ids are unbounded naturals.  The comparison of the id parameter, a
    text, with the ids of the rows is exact for texts in integer notation
    and for texts that are no number; for the remaining numeric texts it
    is a parameter, [numeric_eq], over which everything is proved. *)

From Stdlib Require Import String Ascii List NArith ZArith Bool Lia.
From Stdlib Require Import Decimal DecimalString DecimalN Sorted.
Import ListNotations.

#[local] Open Scope string_scope.
#[local] Open Scope N_scope.

(* ===================================================================== *)
(** ** models/book.go *)
(* ===================================================================== *)

(** [type Book struct { ID uint; Title string; Author string }] *)
Record Book : Type := mkBook {
  ID     : N;
  Title  : string;
  Author : string
}.

(* ===================================================================== *)
(** ** Request bodies and the JSON binder *)
(* ===================================================================== *)

(** A JSON value as far as decoding into a string field can tell values
    apart: a string is stored, [null] is skipped, anything else is a type
    mismatch named after its kind. *)
Inductive JValue : Type :=
| JNull
| JBool (b : bool)
| JNumber (literal : string)
| JString (s : string)
| JArray
| JObject.

(** A request body either fails to parse as a JSON object (the decoder's
    message is carried along; this covers the absent and the zero-length
    body) or is an object, given by its members in the order written. *)
Inductive Body : Type :=
| Unparseable (msg : string)
| Members (ms : list (string * JValue)).

Inductive result (E A : Type) : Type :=
| Ok (a : A)
| Err (e : E).
Arguments Ok {E A} a.
Arguments Err {E A} e.

(** Object keys are matched against the [json:"..."] tag without regard to
    (ASCII) letter case, as Go's decoder does. *)
Definition lower (a : ascii) : ascii :=
  let n := nat_of_ascii a in
  if (Nat.leb 65 n && Nat.leb n 90)%bool then ascii_of_nat (n + 32) else a.

Fixpoint fold_case (s : string) : string :=
  match s with
  | EmptyString => EmptyString
  | String a s' => String (lower a) (fold_case s')
  end.

Definition key_is (tag key : string) : bool := String.eqb (fold_case key) tag.

Definition kind_name (v : JValue) : string :=
  match v with
  | JNull => "null"
  | JBool _ => "bool"
  | JNumber _ => "number"
  | JString _ => "string"
  | JArray => "array"
  | JObject => "object"
  end.

Definition unmarshal_type_error (struct tag : string) (v : JValue) : string :=
  "json: cannot unmarshal " ++ kind_name v ++ " into Go struct field "
    ++ struct ++ "." ++ tag ++ " of type string".

(** Both input schemas are a pair of string fields tagged [title] and
    [author]; [Fields] is that shape while it is being decoded. *)
Record Fields : Type := mkFields {
  f_title   : string;
  f_author  : string;
  f_error   : option string      (* the first decoding error, if any *)
}.

Definition save_error (old : option string) (msg : string) : option string :=
  match old with
  | Some e => Some e
  | None => Some msg
  end.

(** Decoding one member into the struct: unknown keys are ignored, a later
    occurrence of a key overrides an earlier one, a type mismatch leaves
    the field alone and is remembered. *)
Definition decode_member (struct : string) (acc : Fields) (m : string * JValue)
  : Fields :=
  let (k, v) := m in
  if key_is "title" k then
    match v with
    | JString s => mkFields s (f_author acc) (f_error acc)
    | JNull => acc
    | _ => mkFields (f_title acc) (f_author acc)
             (save_error (f_error acc) (unmarshal_type_error struct "title" v))
    end
  else if key_is "author" k then
    match v with
    | JString s => mkFields (f_title acc) s (f_error acc)
    | JNull => acc
    | _ => mkFields (f_title acc) (f_author acc)
             (save_error (f_error acc) (unmarshal_type_error struct "author" v))
    end
  else acc.

Definition decode (struct : string) (b : Body) : result string Fields :=
  match b with
  | Unparseable msg => Err msg
  | Members ms =>
      let r := fold_left (decode_member struct) ms (mkFields "" "" None) in
      match f_error r with
      | Some e => Err e
      | None => Ok r
      end
  end.

(** [type CreateBookInput struct {
       Title  string `json:"title" binding:"required"`
       Author string `json:"author" binding:"required"` }] *)
Record CreateBookInput : Type := mkCreateBookInput {
  CreateBookInput_Title  : string;
  CreateBookInput_Author : string
}.

(** [type UpdateBookInput struct {
       Title  string `json:"title"`
       Author string `json:"author"` }] *)
Record UpdateBookInput : Type := mkUpdateBookInput {
  UpdateBookInput_Title  : string;
  UpdateBookInput_Author : string
}.

Definition is_zero (s : string) : bool := String.eqb s "".

Definition required_error (struct field : string) : string :=
  "Key: '" ++ struct ++ "." ++ field ++ "' Error:Field validation for '"
    ++ field ++ "' failed on the 'required' tag".

Definition newline : string := String (ascii_of_nat 10) EmptyString.

(** The [binding:"required"] check: a field holding its zero value fails;
    the messages of all failing fields are joined, in field order. *)
Definition validate_required (struct : string) (fs : list (string * string))
  : list string :=
  map (fun p => required_error struct (fst p))
      (filter (fun p => is_zero (snd p)) fs).

(** [c.ShouldBindJSON(&input)] for a [CreateBookInput]. *)
Definition ShouldBindJSON_Create (b : Body) : result string CreateBookInput :=
  match decode "CreateBookInput" b with
  | Err e => Err e
  | Ok r =>
      match validate_required "CreateBookInput"
              [("Title", f_title r); ("Author", f_author r)] with
      | [] => Ok (mkCreateBookInput (f_title r) (f_author r))
      | e :: es => Err (String.concat newline (e :: es))
      end
  end.

(** [c.ShouldBindJSON(&input)] for an [UpdateBookInput]: no field carries a
    binding tag, so only decoding can fail. *)
Definition ShouldBindJSON_Update (b : Body) : result string UpdateBookInput :=
  match decode "UpdateBookInput" b with
  | Err e => Err e
  | Ok r => Ok (mkUpdateBookInput (f_title r) (f_author r))
  end.

(* ===================================================================== *)
(** ** The storage and the world a handler runs in *)
(* ===================================================================== *)

(** The [books] table, rows in table order, and the auto-increment counter
    (the largest id ever handed out). *)
Record DB : Type := mkDB {
  table    : list Book;
  sequence : N
}.

(** The calls a handler can make on [models.DB]. *)
Inductive Query : Type :=
| QFind
| QFirst (id : string)
| QCreate (b : Book)
| QUpdates (id : N)
| QDelete (id : N).

(** The world: the database, the faults still to come (one flag per storage
    call, [true] = that call fails; no flag left = it succeeds) and the log
    of storage calls made so far. *)
Record World : Type := mkWorld {
  store   : DB;
  faults  : list bool;
  queries : list Query
}.

(** Handlers are state transformers over the world. *)
Definition M (A : Type) : Type := World -> A * World.

Definition ret {A} (a : A) : M A := fun w => (a, w).

Definition bind {A B} (m : M A) (k : A -> M B) : M B :=
  fun w => let (a, w') := m w in k a w'.

Declare Scope handler_scope.
Delimit Scope handler_scope with handler.
Notation "x <- m ;; k" := (bind m (fun x => k))
  (at level 61, m at next level, right associativity) : handler_scope.
Notation "m ;;; k" := (bind m (fun _ => k))
  (at level 61, right associativity) : handler_scope.
#[local] Open Scope handler_scope.

Definition get_store : M DB := fun w => (store w, w).

Definition put_table (t : list Book) (s : N) : M unit :=
  fun w => (tt, mkWorld (mkDB t s) (faults w) (queries w)).

(** Issue a storage call: log it and learn whether it fails. *)
Definition issue (q : Query) : M bool :=
  fun w => (hd false (faults w),
            mkWorld (store w) (tl (faults w)) (queries w ++ [q])).

(* ===================================================================== *)
(** ** The ORM calls the handlers make *)
(* ===================================================================== *)

(** What the [.Error] field of a finished call can hold. *)
Inductive Error : Type :=
| ErrRecordNotFound
| ErrMissingWhereClause
| ErrStorage.

(** *** The id parameter as the storage reads it

    [Where("id = ?", c.Param("id"))] binds the path parameter as text and
    compares it with the integer [id] column.  The storage first tries to
    read the text as a number:
    - a text in integer notation (optional blanks, an optional sign,
      decimal digits, optional blanks) is the integer it denotes;
    - a text that holds no digit, or a character no number is written
      with, is not a number, stays text, and equals no id;
    - any other text (a fraction, an exponent, ...) is left to the
      storage's conversion to floating point, which is not modelled: how
      such a text compares with an id is a parameter of the development
      ([numeric_eq] below). *)

Definition is_space (a : ascii) : bool :=
  let n := nat_of_ascii a in
  ((Nat.leb 9 n && Nat.leb n 13) || Nat.eqb n 32)%bool.

Definition is_digit (a : ascii) : bool :=
  let n := nat_of_ascii a in (Nat.leb 48 n && Nat.leb n 57)%bool.

(** The characters a number can be written with. *)
Definition numeric_char (a : ascii) : bool :=
  (is_digit a || is_space a || Ascii.eqb a "+" || Ascii.eqb a "-"
   || Ascii.eqb a "." || Ascii.eqb a "e" || Ascii.eqb a "E")%bool.

Fixpoint some_char (f : ascii -> bool) (s : string) : bool :=
  match s with
  | EmptyString => false
  | String a s' => (f a || some_char f s')%bool
  end.

(** No digit at all, or a character that occurs in no number. *)
Definition not_a_number (s : string) : bool :=
  (negb (some_char is_digit s)
   || some_char (fun a => negb (numeric_char a)) s)%bool.

Fixpoint ltrim (s : string) : string :=
  match s with
  | EmptyString => EmptyString
  | String a s' => if is_space a then ltrim s' else s
  end.

Fixpoint rtrim (s : string) : string :=
  match s with
  | EmptyString => EmptyString
  | String a s' =>
      match rtrim s' with
      | EmptyString => if is_space a then EmptyString else String a EmptyString
      | r => String a r
      end
  end.

(** A non-empty run of decimal digits, as the number it denotes. *)
Definition unsigned (s : string) : option N :=
  option_map N.of_uint (NilZero.uint_of_string s).

(** A text in integer notation, as the integer it denotes. *)
Definition integer_text (s : string) : option Z :=
  match rtrim (ltrim s) with
  | String "+" s' => option_map Z.of_N (unsigned s')
  | String "-" s' => option_map (fun n => Z.opp (Z.of_N n)) (unsigned s')
  | s' => option_map Z.of_N (unsigned s')
  end.

Inductive IdText : Type :=
| Denotes (z : Z)       (* integer notation *)
| NotANumber            (* stays text: equals no id *)
| Undetermined.         (* numeric, not in integer notation *)

Definition classify (s : string) : IdText :=
  if not_a_number s then NotANumber
  else match integer_text s with
       | Some z => Denotes z
       | None => Undetermined
       end.

(** The id a parameter in integer notation denotes, when it is not
    negative. *)
Definition parse_id (s : string) : option N :=
  match classify s with
  | Denotes z => if (0 <=? z)%Z then Some (Z.to_N z) else None
  | _ => None
  end.

(** The decimal spelling of an id, as a client writes it into the path. *)
Definition show_id (n : N) : string := NilZero.string_of_uint (N.to_uint n).

Definition has_id (n : N) (b : Book) : bool := ID b =? n.

(** A comparison that matches no text outside integer notation; it stands
    for the storage in the worked examples, none of which consults it. *)
Definition exact_only : string -> N -> bool := fun _ _ => false.

Section Engine.

(** How the storage compares a numeric text that is not in integer
    notation with an id. *)
Variable numeric_eq : string -> N -> bool.

(** [id = ?] for the bound text [p] and the id [n] of a row. *)
Definition id_matches (p : string) (n : N) : bool :=
  match classify p with
  | Denotes z => (z =? Z.of_N n)%Z
  | NotANumber => false
  | Undetermined => numeric_eq p n
  end.

(** [SELECT * FROM books WHERE id = ? ORDER BY id LIMIT 1] on the rows. *)
Definition select_first (p : string) (t : list Book) : option Book :=
  find (fun r => id_matches p (ID r)) t.

(** [models.DB.Where("id = ?", p).First(&book)]: the record found, or the
    error.  Any failure of the query is an error like the empty result. *)
Definition DB_Where_First (p : string) : M (result Error Book) :=
  failed <- issue (QFirst p) ;;
  d <- get_store ;;
  if (failed : bool) then ret (Err ErrStorage)
  else match select_first p (table d) with
       | Some b => ret (Ok b)
       | None => ret (Err ErrRecordNotFound)
       end.

(** [models.DB.Find(&books)]: every row, in table order. *)
Definition DB_Find : M (list Book * option Error) :=
  failed <- issue QFind ;;
  d <- get_store ;;
  if (failed : bool) then ret ([], Some ErrStorage)
  else ret (table d, None).

Definition max_id (t : list Book) : N := fold_right N.max 0 (map ID t).

(** The id an auto-increment insert hands out: one more than the largest
    id that is or ever was in the table. *)
Definition next_id (d : DB) : N := N.max (sequence d) (max_id (table d)) + 1.

(** [models.DB.Create(&book)]: a zero [ID] asks the storage for the next
    id, which is written back into [book]; a non-zero [ID] is inserted as
    given and clashes with a row that has it already. *)
Definition DB_Create (book : Book) : M (Book * option Error) :=
  failed <- issue (QCreate book) ;;
  d <- get_store ;;
  if (failed : bool) then ret (book, Some ErrStorage)
  else if ID book =? 0 then
    let book' := mkBook (next_id d) (Title book) (Author book) in
    put_table (table d ++ [book']) (next_id d) ;;;
    ret (book', None)
  else if existsb (has_id (ID book)) (table d) then ret (book, Some ErrStorage)
  else
    put_table (table d ++ [book]) (N.max (sequence d) (ID book)) ;;;
    ret (book, None).

(** The fields of a struct passed to [Updates] that are written: those not
    holding their zero value. *)
Definition assign (old new : string) : string :=
  if is_zero new then old else new.

Definition merge (b : Book) (input : UpdateBookInput) : Book :=
  mkBook (ID b)
         (assign (Title b) (UpdateBookInput_Title input))
         (assign (Author b) (UpdateBookInput_Author input)).

Definition nothing_to_set (input : UpdateBookInput) : bool :=
  is_zero (UpdateBookInput_Title input)
  && is_zero (UpdateBookInput_Author input).

(** [models.DB.Model(&book).Updates(input)]: the non-zero fields of [input]
    are assigned to [book] in memory and then written to the rows whose id
    is [book.ID].  With no field to set no statement is run; with a zero
    [book.ID] the statement has no condition and is refused. *)
Definition DB_Model_Updates (book : Book) (input : UpdateBookInput)
  : M (Book * option Error) :=
  failed <- issue (QUpdates (ID book)) ;;
  d <- get_store ;;
  if nothing_to_set input then
    ret (book, if (failed : bool) then Some ErrStorage else None)
  else if ID book =? 0 then ret (merge book input, Some ErrMissingWhereClause)
  else if (failed : bool) then ret (merge book input, Some ErrStorage)
  else
    put_table (map (fun r => if has_id (ID book) r then merge r input else r)
                   (table d))
              (sequence d) ;;;
    ret (merge book input, None).

(** [models.DB.Delete(&book)]: [Book] has no deletion timestamp, so the rows
    whose id is [book.ID] are removed for good. *)
Definition DB_Delete (book : Book) : M (option Error) :=
  failed <- issue (QDelete (ID book)) ;;
  d <- get_store ;;
  if ID book =? 0 then ret (Some ErrMissingWhereClause)
  else if (failed : bool) then ret (Some ErrStorage)
  else
    put_table (filter (fun r => negb (has_id (ID book) r)) (table d))
              (sequence d) ;;;
    ret None.

(* ===================================================================== *)
(** ** models/setup.go *)
(* ===================================================================== *)

Inductive Startup : Type :=
| Panic (msg : string)
| Returned (handle : option DB).

(** [ConnectDatabase]: [open_err] and [migrate_err] tell whether [gorm.Open]
    and [AutoMigrate] fail; [fresh] is the database that was opened.  The
    global [DB] stays [nil] when the function returns early. *)
Definition ConnectDatabase (open_err migrate_err : bool) (fresh : DB) : Startup :=
  if open_err then Panic "Failed to connect to database!"
  else if migrate_err then Returned None
  else Returned (Some fresh).

(* ===================================================================== *)
(** ** controllers/books.go *)
(* ===================================================================== *)

Inductive Data : Type :=
| DBook (b : Book)
| DBooks (l : list Book)
| DTrue.

(** [gin.H{"data": ...}] and [gin.H{"error": ...}]. *)
Inductive gin_H : Type :=
| H_data (d : Data)
| H_error (msg : string).

Record Response : Type := mkResponse {
  status : N;
  json   : gin_H
}.

Definition StatusOK : N := 200.
Definition StatusBadRequest : N := 400.

(** [c.JSON(code, obj)] *)
Definition JSON (code : N) (obj : gin_H) : M Response :=
  ret (mkResponse code obj).

(** The request context: the path parameters and the body. *)
Record Context : Type := mkContext {
  Params      : list (string * string);
  RequestBody : Body
}.

(** [c.Param(key)]: the value of the parameter, or the empty string. *)
Definition Param (c : Context) (key : string) : string :=
  match find (fun p => String.eqb (fst p) key) (Params c) with
  | Some p => snd p
  | None => ""
  end.

Definition not_found : gin_H := H_error "Record not found!".

(** [GET /books] *)
Definition FindBooks (c : Context) : M Response :=
  r <- DB_Find ;;
  JSON StatusOK (H_data (DBooks (fst r))).

(** [POST /books] *)
Definition CreateBook (c : Context) : M Response :=
  match ShouldBindJSON_Create (RequestBody c) with
  | Err err => JSON StatusBadRequest (H_error err)
  | Ok input =>
      let book := mkBook 0 (CreateBookInput_Title input)
                           (CreateBookInput_Author input) in
      r <- DB_Create book ;;
      JSON StatusOK (H_data (DBook (fst r)))
  end.

(** [GET /books/:id] *)
Definition FindBook (c : Context) : M Response :=
  r <- DB_Where_First (Param c "id") ;;
  match r with
  | Err _ => JSON StatusBadRequest not_found
  | Ok book => JSON StatusOK (H_data (DBook book))
  end.

(** [UpdateBook], registered under [/books/:id] *)
Definition UpdateBook (c : Context) : M Response :=
  r <- DB_Where_First (Param c "id") ;;
  match r with
  | Err _ => JSON StatusBadRequest not_found
  | Ok book =>
      match ShouldBindJSON_Update (RequestBody c) with
      | Err err => JSON StatusBadRequest (H_error err)
      | Ok input =>
          u <- DB_Model_Updates book input ;;
          JSON StatusOK (H_data (DBook (fst u)))
      end
  end.

(** [DELETE /books/:id] *)
Definition DeleteBook (c : Context) : M Response :=
  r <- DB_Where_First (Param c "id") ;;
  match r with
  | Err _ => JSON StatusBadRequest not_found
  | Ok book =>
      DB_Delete book ;;;
      JSON StatusOK (H_data DTrue)
  end.

(* ===================================================================== *)
(** ** main.go *)
(* ===================================================================== *)

Inductive Method : Type := GET | POST | PUT | PATCH | DELETE | HEAD | OPTIONS.

Definition Method_eqb (a b : Method) : bool :=
  match a, b with
  | GET, GET | POST, POST | PUT, PUT | PATCH, PATCH
  | DELETE, DELETE | HEAD, HEAD | OPTIONS, OPTIONS => true
  | _, _ => false
  end.

(** A request: the method, the path split at its slashes, the body. *)
Record Request : Type := mkRequest {
  method : Method;
  path   : list string;
  body   : Body
}.

Definition HandlerFunc : Type := Context -> M Response.

(** The routes [main] registers, in the order it registers them. *)
Definition routes : list (Method * list string * HandlerFunc) :=
  [ (GET,    ["books"],        FindBooks);
    (GET,    ["books"; ":id"], FindBook);
    (POST,   ["books"],        CreateBook);
    (PUT,    ["books"; ":id"], UpdateBook);
    (DELETE, ["books"; ":id"], DeleteBook) ].

(** Matching a path against a route pattern: a segment [:name] takes any
    non-empty segment and binds it, any other segment matches itself. *)
Fixpoint match_path (pattern segs : list string) : option (list (string * string)) :=
  match pattern, segs with
  | [], [] => Some []
  | String ":" name :: pattern', seg :: segs' =>
      if is_zero seg then None
      else option_map (cons (name, seg)) (match_path pattern' segs')
  | lit :: pattern', seg :: segs' =>
      if String.eqb lit seg then match_path pattern' segs' else None
  | _, _ => None
  end.

Fixpoint lookup_route (rs : list (Method * list string * HandlerFunc))
  (m : Method) (segs : list string) : option (HandlerFunc * list (string * string)) :=
  match rs with
  | [] => None
  | (m', pattern, h) :: rs' =>
      if Method_eqb m m' then
        match match_path pattern segs with
        | Some ps => Some (h, ps)
        | None => lookup_route rs' m segs
        end
      else lookup_route rs' m segs
  end.

(** Serving one request: the handler of the matching route runs; with no
    matching route no handler of the program runs and the framework answers
    by itself ([None]). *)
Definition serve (r : Request) : M (option Response) :=
  match lookup_route routes (method r) (path r) with
  | Some (h, ps) =>
      resp <- h (mkContext ps (body r)) ;;
      ret (Some resp)
  | None => ret None
  end.

(* ===================================================================== *)
(** ** Vocabulary of the statements *)
(* ===================================================================== *)

(** The parameter is not numeric: it holds no decimal digit, or it holds a
    character that no number is written with. *)
Definition malformed (p : string) : Prop :=
  (forall a, In a (list_ascii_of_string p) -> is_digit a = false) \/
  (exists a, In a (list_ascii_of_string p) /\ numeric_char a = false).

(** The parameter is the decimal spelling of an id that no stored row
    has. *)
Definition unused (p : string) (d : DB) : Prop :=
  exists n, p = show_id n /\ forall b, In b (table d) -> ID b <> n.

(** The storage's comparison matches the parameter to no stored row. *)
Definition absent (p : string) (d : DB) : Prop :=
  forall b, In b (table d) -> id_matches p (ID b) = false.

(** What became of a request handed to a handler. *)
Inductive Outcome : Type :=
| Answered (resp : Response)
| Panicked.

(** A handler whose first statement is a call on the global [models.DB]
    ([FindBooks], [FindBook], [UpdateBook], [DeleteBook]), run by a process
    whose [ConnectDatabase] ended as [s].  With the handle set the handler
    runs.  With [models.DB] still nil (the migration failed and
    [ConnectDatabase] returned early) that first statement dereferences
    nil: the handler panics and gives no answer of its own.  After a start
    that panicked there is no process to answer. *)
Definition invoke (s : Startup) (h : HandlerFunc) (c : Context) : M Outcome :=
  match s with
  | Returned (Some _) => resp <- h c ;; ret (Answered resp)
  | Returned None => ret Panicked
  | Panic _ => ret Panicked
  end.

(** What an update payload provides for a field: the string of the last
    member named [tag] that carries one; nothing when the field is
    omitted. *)
Fixpoint patch_value (tag : string) (ms : list (string * JValue))
  : option string :=
  match ms with
  | [] => None
  | (k, v) :: ms' =>
      match patch_value tag ms' with
      | Some s => Some s
      | None =>
          if key_is tag k then
            match v with
            | JString s => Some s
            | _ => None
            end
          else None
      end
  end.

(** Every member named [title] or [author] carries a string or [null]. *)
Definition well_typed (ms : list (string * JValue)) : Prop :=
  Forall (fun m =>
            key_is "title" (fst m) = true \/ key_is "author" (fst m) = true ->
            match snd m with
            | JString _ | JNull => True
            | _ => False
            end) ms.

(** Whether the [k]-th storage call from now on fails. *)
Definition fault_at (k : nat) (w : World) : bool := nth k (faults w) false.

(** Unfolds the plumbing of the handler monad. *)
Ltac run :=
  unfold JSON, bind, ret, issue, get_store, put_table; simpl.

(** The world right after the lookup by id. *)
Definition looked_up (p : string) (w : World) : World :=
  mkWorld (store w) (tl (faults w)) (queries w ++ [QFirst p]).

(** The context the router builds for [/books/<id>]. *)
Definition with_id (p : string) (b : Body) : Context :=
  mkContext [("id", p)] b.

(** The worlds and payloads of the walk-through: an empty store, the store
    after the first book was created, and the two request bodies. *)
Definition empty_world : World := mkWorld (mkDB [] 0) [] [].

Definition start_with_why : Body :=
  Members [("title", JString "Start with Why");
           ("author", JString "Simon Sinek")].

(** The table after the rows with id [n] took the non-zero fields of
    [input]. *)
Definition updated (n : N) (input : UpdateBookInput) (t : list Book) : list Book :=
  map (fun r => if has_id n r then merge r input else r) t.

Definition one_book_world : World :=
  mkWorld (mkDB [mkBook 1 "Start with Why" "Simon Sinek"] 1) [] [].

Definition the_infinite_game : Body :=
  Members [("title", JString "The Infinite Game")].

(** A handler validates first when a payload its binder rejects leaves the
    log of storage calls as it was. *)
Definition validates_first {A : Type} (binder : Body -> result string A)
           (h : HandlerFunc) : Prop :=
  forall (c : Context) (w : World),
    (exists e, binder (RequestBody c) = Err e) ->
    queries (snd (h c w)) = queries w.

(** A world whose storage serves the lookup and fails the call after it. *)
Definition failing_write_world : World :=
  mkWorld (mkDB [mkBook 1 "Start with Why" "Simon Sinek"] 1) [false; true] [].

(** The table after the rows with id [n] were removed. *)
Definition removed (n : N) (t : list Book) : list Book :=
  filter (fun r => negb (has_id n r)) t.

(** The ids in the table, in table order. *)
Definition ids (w : World) : list N := map ID (table (store w)).

(** The handlers of [controllers/books.go]. *)
Definition handlers : list HandlerFunc :=
  [FindBooks; FindBook; CreateBook; UpdateBook; DeleteBook].

(** The route table of the README's last listing of [main]: the same
    handlers, registered in the order of the walk-through, the update
    handler under PATCH. *)
Definition routes_tutorial : list (Method * list string * HandlerFunc) :=
  [ (GET,    ["books"],        FindBooks);
    (POST,   ["books"],        CreateBook);
    (GET,    ["books"; ":id"], FindBook);
    (PATCH,  ["books"; ":id"], UpdateBook);
    (DELETE, ["books"; ":id"], DeleteBook) ].

(** PUT and PATCH exchanged, every other method left alone. *)
Definition swap_update_method (m : Method) : Method :=
  match m with
  | PUT => PATCH
  | PATCH => PUT
  | _ => m
  end.

(** [r.Run()]: the requests are served one after the other, in the order
    in which the storage serialises them; the answers are collected. *)
Fixpoint Run (rs : list Request) : M (list (option Response)) :=
  match rs with
  | [] => ret []
  | r :: rs' =>
      x <- serve r ;;
      xs <- Run rs' ;;
      ret (x :: xs)
  end.

(** The create request for a title and an author. *)
Definition post_book (ta : string * string) : Request :=
  mkRequest POST ["books"]
            (Members [("title", JString (fst ta)); ("author", JString (snd ta))]).

(** The books a run of creates leaves when the first id handed out is [k]. *)
Fixpoint numbered (k : N) (tas : list (string * string)) : list Book :=
  match tas with
  | [] => []
  | ta :: tas' => mkBook k (fst ta) (snd ta) :: numbered (k + 1) tas'
  end.

(** A well-formed store: the rows are in strictly increasing id order, every
    id is positive and at most the id counter, and no title or author is
    empty. *)
Definition wf_store (d : DB) : Prop :=
  StronglySorted N.lt (map ID (table d)) /\
  Forall (fun b => 0 < ID b /\ ID b <= sequence d /\
                   Title b <> "" /\ Author b <> "") (table d).

(** No member of an object is decoded into the field tagged [tag]. *)
Definition lacks (tag : string) (ms : list (string * JValue)) : Prop :=
  Forall (fun m => key_is tag (fst m) = false) ms.

(** The two shapes of an answer: 200 with a [data] envelope, 400 with an
    [error] envelope. *)
Definition enveloped (resp : Response) : Prop :=
  (status resp = 200 /\ exists d, json resp = H_data d) \/
  (status resp = 400 /\ exists e, json resp = H_error e).

(** The pairs of method and path [main] registers a handler for. *)
Definition registered (m : Method) (segs : list string) : Prop :=
  (segs = ["books"] /\ (m = GET \/ m = POST)) \/
  (exists id, id <> "" /\ segs = ["books"; id] /\
              (m = GET \/ m = PUT \/ m = DELETE)).

(* ===================================================================== *)
(** * Properties *)
(* ===================================================================== *)

(** ** Ids and their decimal spelling *)

Lemma digit_is_not_space (a : ascii) : is_digit a = true -> is_space a = false.
Proof.
  destruct a as [[|] [|] [|] [|] [|] [|] [|] [|]];
    try reflexivity; discriminate.
Qed.

Lemma digit_is_numeric (a : ascii) : is_digit a = true -> numeric_char a = true.
Proof. unfold numeric_char. now intros ->. Qed.

(** A run of digits, read by the library's numeral parser, consists of
    digits. *)
Lemma uint_of_string_digits (s : string) (d : uint) :
  NilEmpty.uint_of_string s = Some d ->
  some_char (fun a => negb (is_digit a)) s = false.
Proof.
  revert d. induction s as [|a s IH]; simpl; intros d Hd; [reflexivity|].
  destruct (NilEmpty.uint_of_string s) as [d'|]; [|discriminate].
  rewrite (IH d' eq_refl), orb_false_r.
  apply uint_of_char_spec in Hd.
  destruct Hd as [[-> _]|[[-> _]|[[-> _]|[[-> _]|[[-> _]|[[-> _]|[[-> _]
                 |[[-> _]|[[-> _]|[-> _]]]]]]]]]]; reflexivity.
Qed.

Section Digits.

Variable s : string.
Hypothesis Hdigits : some_char (fun a => negb (is_digit a)) s = false.
Hypothesis Hnonempty : s <> EmptyString.

Lemma digits_ltrim : ltrim s = s.
Proof.
  destruct s as [|a s']; [reflexivity|]. simpl in *.
  apply orb_false_iff in Hdigits as [Ha _]. apply negb_false_iff in Ha.
  now rewrite (digit_is_not_space a Ha).
Qed.

Lemma digits_rtrim : rtrim s = s.
Proof.
  clear Hnonempty. induction s as [|a s' IH]; [reflexivity|]. simpl in *.
  apply orb_false_iff in Hdigits as [Ha Hs']. apply negb_false_iff in Ha.
  rewrite (IH Hs'). destruct s'; [|reflexivity].
  now rewrite (digit_is_not_space a Ha).
Qed.

Lemma digits_are_a_number : not_a_number s = false.
Proof.
  unfold not_a_number. apply orb_false_iff. split.
  - apply negb_false_iff. destruct s as [|a s']; [congruence|]. simpl in *.
    apply orb_false_iff in Hdigits as [Ha _]. apply negb_false_iff in Ha.
    now rewrite Ha.
  - clear Hnonempty. induction s as [|a s' IH]; [reflexivity|]. simpl in *.
    apply orb_false_iff in Hdigits as [Ha Hs']. apply negb_false_iff in Ha.
    now rewrite (digit_is_numeric a Ha), (IH Hs').
Qed.

Lemma digits_integer_text : integer_text s = option_map Z.of_N (unsigned s).
Proof.
  unfold integer_text. rewrite digits_ltrim, digits_rtrim.
  destruct s as [|a s']; [congruence|]. simpl in Hdigits.
  apply orb_false_iff in Hdigits as [Ha _]. apply negb_false_iff in Ha.
  destruct a as [[|] [|] [|] [|] [|] [|] [|] [|]];
    try discriminate Ha; reflexivity.
Qed.

End Digits.

Lemma classify_digits (s : string) (d : uint) :
  NilZero.uint_of_string s = Some d ->
  classify s = Denotes (Z.of_N (N.of_uint d)).
Proof.
  intros Hd.
  assert (Hne : s <> EmptyString) by (intros ->; discriminate).
  assert (Hd' : NilEmpty.uint_of_string s = Some d) by (now destruct s).
  pose proof (uint_of_string_digits s d Hd') as Hall.
  unfold classify.
  rewrite (digits_are_a_number s Hall Hne), (digits_integer_text s Hall Hne).
  unfold unsigned. now rewrite Hd.
Qed.

Lemma parse_show (n : N) : parse_id (show_id n) = Some n.
Proof.
  unfold parse_id, show_id.
  rewrite (classify_digits _ (N.to_uint n)).
  - rewrite DecimalN.Unsigned.of_to.
    assert (E : (0 <=? Z.of_N n)%Z = true) by (apply Z.leb_le; lia).
    now rewrite E, N2Z.id.
  - apply NilZero.usu. destruct n as [|p]; [discriminate|].
    simpl. apply DecimalPos.Unsigned.to_uint_nonnil.
Qed.

Lemma parse_id_empty : parse_id "" = None.
Proof. reflexivity. Qed.

(** A parameter in integer notation matches exactly the id it denotes. *)
Lemma parse_id_matches (p : string) (n m : N) :
  parse_id p = Some n -> id_matches p m = (n =? m).
Proof.
  unfold parse_id, id_matches. destruct (classify p) as [z| |]; try discriminate.
  destruct (Z.leb_spec 0 z) as [Hz|Hz]; [|discriminate]. intros [= <-].
  destruct (Z.eqb_spec z (Z.of_N m)) as [E|E],
           (N.eqb_spec (Z.to_N z) m) as [E'|E']; try reflexivity; lia.
Qed.

Lemma some_char_In (f : ascii -> bool) (s : string) :
  some_char f s = true <-> exists a, In a (list_ascii_of_string s) /\ f a = true.
Proof.
  induction s as [|a s IH]; simpl.
  - split; [discriminate|intros [a [[] _]]].
  - rewrite orb_true_iff, IH. split.
    + intros [Ha|[b [Hb Hf]]]; [exists a; auto|exists b; auto].
    + intros [b [[<-|Hb] Hf]]; [now left|right; now exists b].
Qed.

Lemma malformed_not_a_number (p : string) :
  malformed p -> not_a_number p = true.
Proof.
  unfold malformed, not_a_number. intros [Hnone|[a [Ha Hn]]].
  - apply orb_true_iff. left. apply negb_true_iff.
    destruct (some_char is_digit p) eqn:E; [|reflexivity].
    apply some_char_In in E as [a [Ha Hd]]. rewrite (Hnone a Ha) in Hd.
    discriminate.
  - apply orb_true_iff. right. apply some_char_In. exists a.
    split; [assumption|]. now rewrite Hn.
Qed.

Lemma malformed_matches_nothing (p : string) (n : N) :
  malformed p -> id_matches p n = false.
Proof.
  intros Hm. unfold id_matches, classify.
  now rewrite (malformed_not_a_number p Hm).
Qed.

(** ** Rows and ids *)

Lemma has_id_true (n : N) (b : Book) : has_id n b = true <-> ID b = n.
Proof. unfold has_id. apply N.eqb_eq. Qed.

Lemma has_id_false (n : N) (b : Book) : has_id n b = false <-> ID b <> n.
Proof. unfold has_id. apply N.eqb_neq. Qed.

Lemma max_id_upper (t : list Book) (b : Book) : In b t -> ID b <= max_id t.
Proof.
  unfold max_id. induction t as [|r t IH]; simpl; [tauto|].
  intros [->|Hin]; [lia|]. specialize (IH Hin). lia.
Qed.

Lemma next_id_fresh (d : DB) (b : Book) : In b (table d) -> ID b < next_id d.
Proof.
  intros Hin. apply max_id_upper in Hin. unfold next_id. lia.
Qed.

Lemma next_id_positive (d : DB) : 0 < next_id d.
Proof. unfold next_id. lia. Qed.

Lemma find_none_iff (n : N) (t : list Book) :
  find (has_id n) t = None <-> (forall b, In b t -> ID b <> n).
Proof.
  split.
  - intros Hf b Hin. apply has_id_false. exact (find_none _ _ Hf b Hin).
  - induction t as [|r t IH]; simpl; intros Hall; [reflexivity|].
    destruct (has_id n r) eqn:E.
    + apply has_id_true in E. exfalso. apply (Hall r); auto.
    + apply IH. intros b Hb. apply Hall. now right.
Qed.

Lemma find_has_id (n : N) (t : list Book) (b : Book) :
  find (has_id n) t = Some b -> In b t /\ ID b = n.
Proof.
  intros Hf. apply find_some in Hf. now rewrite has_id_true in Hf.
Qed.

(** With unique ids a stored row is the one its id finds. *)
Lemma find_unique (t : list Book) (b : Book) :
  NoDup (map ID t) -> In b t -> find (has_id (ID b)) t = Some b.
Proof.
  induction t as [|r t IH]; simpl; [tauto|].
  intros Hnd [->|Hin].
  - unfold has_id. now rewrite N.eqb_refl.
  - inversion Hnd as [|? ? Hnotin Hnd']; subst.
    destruct (has_id (ID b) r) eqn:E.
    + apply has_id_true in E. exfalso. apply Hnotin. rewrite E.
      now apply in_map.
    + now apply IH.
Qed.

Lemma find_appended (d : DB) (b : Book) :
  ID b = next_id d -> find (has_id (next_id d)) (table d ++ [b]) = Some b.
Proof.
  intros Hid.
  assert (Hfresh : forall t, (forall r, In r t -> ID r < next_id d) ->
            find (has_id (next_id d)) (t ++ [b]) = Some b).
  { induction t as [|r t IH]; simpl; intros Hlt.
    - unfold has_id. rewrite Hid. now rewrite N.eqb_refl.
    - destruct (has_id (next_id d) r) eqn:E.
      + apply has_id_true in E. specialize (Hlt r (or_introl eq_refl)). lia.
      + apply IH. intros r' Hr'. apply Hlt. now right. }
  apply Hfresh. intros r. apply next_id_fresh.
Qed.

(** ** The path parameter against the table *)

Lemma malformed_absent (p : string) (d : DB) : malformed p -> absent p d.
Proof. intros Hm b _. now apply malformed_matches_nothing. Qed.

Lemma unused_absent (p : string) (d : DB) : unused p d -> absent p d.
Proof.
  intros [n [-> Hn]] b Hb. rewrite (parse_id_matches _ n _ (parse_show n)).
  apply N.eqb_neq. intros E. now apply (Hn b Hb).
Qed.

(** For a parameter in integer notation the lookup is the lookup of the id
    it denotes. *)
Lemma select_first_numeral (p : string) (n : N) (t : list Book) :
  parse_id p = Some n -> select_first p t = find (has_id n) t.
Proof.
  intros Hp. unfold select_first.
  induction t as [|r t IH]; simpl; [reflexivity|].
  rewrite (parse_id_matches p n (ID r) Hp), IH. unfold has_id.
  now rewrite N.eqb_sym.
Qed.

Lemma select_first_none (p : string) (d : DB) :
  absent p d <-> select_first p (table d) = None.
Proof.
  unfold absent, select_first. split.
  - induction (table d) as [|r t IH]; simpl; intros Habs; [reflexivity|].
    rewrite (Habs r (or_introl eq_refl)). apply IH.
    intros b Hb. apply Habs. now right.
  - intros Hf b Hin. exact (find_none _ _ Hf b Hin).
Qed.

Lemma select_first_stored (p : string) (d : DB) (b : Book) :
  NoDup (map ID (table d)) -> In b (table d) -> parse_id p = Some (ID b) ->
  select_first p (table d) = Some b.
Proof.
  intros Hnd Hin Hp. rewrite (select_first_numeral _ _ _ Hp).
  now apply find_unique.
Qed.

Lemma Param_with_id (p : string) (b : Body) : Param (with_id p b) "id" = p.
Proof. reflexivity. Qed.

(** ** Running the storage calls *)

Lemma fault_at_0 (w : World) : fault_at 0 w = hd false (faults w).
Proof. unfold fault_at. now destruct (faults w). Qed.

Lemma fault_at_S (k : nat) (w : World) (s : DB) (qs : list Query) :
  fault_at k (mkWorld s (tl (faults w)) qs) = fault_at (S k) w.
Proof. unfold fault_at. simpl. destruct (faults w); simpl; [now destruct k|reflexivity]. Qed.

Lemma DB_Where_First_run (p : string) (w : World) :
  DB_Where_First p w =
  (if fault_at 0 w then Err ErrStorage
   else match select_first p (table (store w)) with
        | Some b => Ok b
        | None => Err ErrRecordNotFound
        end,
   mkWorld (store w) (tl (faults w)) (queries w ++ [QFirst p])).
Proof.
  rewrite fault_at_0. unfold DB_Where_First. run.
  destruct (hd false (faults w)); [reflexivity|].
  now destruct (select_first p (table (store w))).
Qed.

Lemma DB_Where_First_absent (p : string) (w : World) :
  absent p (store w) ->
  exists e, DB_Where_First p w =
    (Err e, mkWorld (store w) (tl (faults w)) (queries w ++ [QFirst p])).
Proof.
  intros Habs. rewrite DB_Where_First_run.
  apply select_first_none in Habs. rewrite Habs.
  destruct (fault_at 0 w); eauto.
Qed.

Lemma DB_Where_First_stored (p : string) (w : World) (b : Book) :
  fault_at 0 w = false -> select_first p (table (store w)) = Some b ->
  DB_Where_First p w =
    (Ok b, mkWorld (store w) (tl (faults w)) (queries w ++ [QFirst p])).
Proof.
  intros Hf Hs. rewrite DB_Where_First_run. now rewrite Hf, Hs.
Qed.

Lemma FindBook_absent (c : Context) (w : World) :
  absent (Param c "id") (store w) ->
  FindBook c w = (mkResponse StatusBadRequest not_found,
                  looked_up (Param c "id") w).
Proof.
  intros Habs. unfold FindBook, bind.
  destruct (DB_Where_First_absent _ _ Habs) as [e ->]. reflexivity.
Qed.

Lemma UpdateBook_absent (c : Context) (w : World) :
  absent (Param c "id") (store w) ->
  UpdateBook c w = (mkResponse StatusBadRequest not_found,
                    looked_up (Param c "id") w).
Proof.
  intros Habs. unfold UpdateBook, bind.
  destruct (DB_Where_First_absent _ _ Habs) as [e ->]. reflexivity.
Qed.

Lemma DeleteBook_absent (c : Context) (w : World) :
  absent (Param c "id") (store w) ->
  DeleteBook c w = (mkResponse StatusBadRequest not_found,
                    looked_up (Param c "id") w).
Proof.
  intros Habs. unfold DeleteBook, bind.
  destruct (DB_Where_First_absent _ _ Habs) as [e ->]. reflexivity.
Qed.

(** ** The binder on the payloads of the examples *)

Lemma bind_create_title_author (t a : string) :
  t <> "" -> a <> "" ->
  ShouldBindJSON_Create (Members [("title", JString t); ("author", JString a)])
  = Ok (mkCreateBookInput t a).
Proof.
  intros Ht Ha. unfold ShouldBindJSON_Create, validate_required, is_zero. simpl.
  apply String.eqb_neq in Ht, Ha. now rewrite Ht, Ha.
Qed.

(** A member whose key names no field of the schema does not take part in
    decoding. *)
Lemma decode_unknown_member (struct k : string) (v : JValue)
      (ms : list (string * JValue)) :
  key_is "title" k = false -> key_is "author" k = false ->
  decode struct (Members ((k, v) :: ms)) = decode struct (Members ms).
Proof.
  intros Ht Ha. unfold decode. simpl. now rewrite Ht, Ha.
Qed.

Lemma bind_create_ignores_id (v : JValue) (ms : list (string * JValue)) :
  ShouldBindJSON_Create (Members (("id", v) :: ms))
  = ShouldBindJSON_Create (Members ms).
Proof.
  unfold ShouldBindJSON_Create. now rewrite decode_unknown_member.
Qed.

Lemma bind_update_ignores_id (v : JValue) (ms : list (string * JValue)) :
  ShouldBindJSON_Update (Members (("id", v) :: ms))
  = ShouldBindJSON_Update (Members ms).
Proof.
  unfold ShouldBindJSON_Update. now rewrite decode_unknown_member.
Qed.

(** A create payload that passes the binder has both fields non-empty. *)
Lemma bind_create_non_empty (b : Body) (input : CreateBookInput) :
  ShouldBindJSON_Create b = Ok input ->
  CreateBookInput_Title input <> "" /\ CreateBookInput_Author input <> "".
Proof.
  unfold ShouldBindJSON_Create, validate_required, is_zero.
  destruct (decode "CreateBookInput" b) as [r|e]; [|discriminate]. simpl.
  destruct (String.eqb_spec (f_title r) ""), (String.eqb_spec (f_author r) "");
    simpl; try discriminate.
  intros [= <-]. simpl. auto.
Qed.

(** ** Running the handlers on their success paths *)

Lemma CreateBook_run (c : Context) (w : World) (input : CreateBookInput) :
  ShouldBindJSON_Create (RequestBody c) = Ok input ->
  fault_at 0 w = false ->
  let book := mkBook (next_id (store w)) (CreateBookInput_Title input)
                     (CreateBookInput_Author input) in
  CreateBook c w =
    (mkResponse StatusOK (H_data (DBook book)),
     mkWorld (mkDB (table (store w) ++ [book]) (next_id (store w)))
             (tl (faults w))
             (queries w ++ [QCreate (mkBook 0 (CreateBookInput_Title input)
                                              (CreateBookInput_Author input))])).
Proof.
  intros Hb Hf. rewrite fault_at_0 in Hf.
  unfold CreateBook. rewrite Hb. unfold DB_Create. run. now rewrite Hf.
Qed.

Lemma FindBook_stored (c : Context) (w : World) (b : Book) :
  fault_at 0 w = false ->
  select_first (Param c "id") (table (store w)) = Some b ->
  FindBook c w = (mkResponse StatusOK (H_data (DBook b)),
                  looked_up (Param c "id") w).
Proof.
  intros Hf Hs. unfold FindBook, bind.
  now rewrite (DB_Where_First_stored _ _ _ Hf Hs).
Qed.

(** C1. For every create payload that passes validation (title and author
    non-empty) and a storage that serves the two calls, [CreateBook]
    answers 200 with a book carrying the payload's title and author, and
    [FindBook] on the id of that book (in its decimal spelling, with any
    body) then answers 200 with the very same book: same id, title and
    author. *)
Theorem create_then_find_by_id
        (c : Context) (w : World) (input : CreateBookInput) (b' : Body) :
  ShouldBindJSON_Create (RequestBody c) = Ok input ->
  fault_at 0 w = false -> fault_at 1 w = false ->
  exists (book : Book) (w1 w2 : World),
    CreateBook c w = (mkResponse StatusOK (H_data (DBook book)), w1) /\
    Title book = CreateBookInput_Title input /\
    Author book = CreateBookInput_Author input /\
    Title book <> "" /\ Author book <> "" /\
    FindBook (with_id (show_id (ID book)) b') w1
      = (mkResponse StatusOK (H_data (DBook book)), w2).
Proof.
  intros Hb Hf0 Hf1.
  pose proof (bind_create_non_empty _ _ Hb) as [Ht Ha].
  eexists _, _, _. split; [exact (CreateBook_run c w input Hb Hf0)|].
  simpl. repeat split; auto.
  apply FindBook_stored.
  - now rewrite fault_at_S.
  - rewrite Param_with_id, (select_first_numeral _ _ _ (parse_show _)).
    now apply find_appended.
Qed.

(** ** Update *)

Lemma unique_row (t : list Book) (a b : Book) :
  NoDup (map ID t) -> In a t -> In b t -> ID a = ID b -> a = b.
Proof.
  intros Hnd Ha Hb E.
  pose proof (find_unique t a Hnd Ha) as Fa.
  pose proof (find_unique t b Hnd Hb) as Fb.
  rewrite E in Fa. congruence.
Qed.

Lemma assign_zero (old : string) : assign old "" = old.
Proof. reflexivity. Qed.

Lemma merge_nothing (b : Book) (input : UpdateBookInput) :
  nothing_to_set input = true -> merge b input = b.
Proof.
  unfold nothing_to_set, merge, assign. intros H.
  apply andb_true_iff in H as [-> ->]. now destruct b.
Qed.

Lemma merge_ID (b : Book) (input : UpdateBookInput) : ID (merge b input) = ID b.
Proof. reflexivity. Qed.

Lemma updated_ids (n : N) (input : UpdateBookInput) (t : list Book) :
  map ID (updated n input t) = map ID t.
Proof.
  unfold updated. rewrite map_map. apply map_ext. intros r.
  now destruct (has_id n r).
Qed.

Lemma updated_nothing (n : N) (input : UpdateBookInput) (t : list Book) :
  nothing_to_set input = true -> updated n input t = t.
Proof.
  intros H. unfold updated. rewrite <- (map_id t) at 2. apply map_ext.
  intros r. destruct (has_id n r); [now apply merge_nothing|reflexivity].
Qed.

Lemma DB_Model_Updates_run (book : Book) (input : UpdateBookInput) (w : World) :
  0 < ID book -> fault_at 0 w = false ->
  DB_Model_Updates book input w =
    ((merge book input, None),
     mkWorld (mkDB (updated (ID book) input (table (store w)))
                   (sequence (store w)))
             (tl (faults w)) (queries w ++ [QUpdates (ID book)])).
Proof.
  intros Hpos Hf. rewrite fault_at_0 in Hf.
  unfold DB_Model_Updates. run. rewrite Hf.
  destruct (nothing_to_set input) eqn:E.
  - rewrite merge_nothing, updated_nothing by assumption.
    now destruct (store w).
  - apply N.lt_neq, not_eq_sym, N.eqb_neq in Hpos. now rewrite Hpos.
Qed.

Lemma UpdateBook_run (c : Context) (w : World) (book : Book)
      (input : UpdateBookInput) :
  select_first (Param c "id") (table (store w)) = Some book ->
  ShouldBindJSON_Update (RequestBody c) = Ok input ->
  0 < ID book -> fault_at 0 w = false -> fault_at 1 w = false ->
  UpdateBook c w =
    (mkResponse StatusOK (H_data (DBook (merge book input))),
     mkWorld (mkDB (updated (ID book) input (table (store w)))
                   (sequence (store w)))
             (tl (tl (faults w)))
             ((queries w ++ [QFirst (Param c "id")]) ++ [QUpdates (ID book)])).
Proof.
  intros Hs Hb Hpos Hf0 Hf1. unfold UpdateBook, bind at 1.
  rewrite (DB_Where_First_stored _ _ _ Hf0 Hs), Hb. unfold bind.
  rewrite DB_Model_Updates_run; [reflexivity|assumption|].
  now rewrite fault_at_S.
Qed.

Lemma keys_disjoint (k : string) :
  key_is "title" k = true -> key_is "author" k = false.
Proof.
  unfold key_is. intros Ht. apply String.eqb_eq in Ht. now rewrite Ht.
Qed.

(** The decoder against the payload: with well-typed members the fields it
    yields are what the payload provides, a field the payload omits keeps
    what the struct held, and no error is recorded. *)
Lemma decode_reads_payload (struct : string) (ms : list (string * JValue)) :
  well_typed ms ->
  forall acc : Fields,
    let r := fold_left (decode_member struct) ms acc in
    f_title r = match patch_value "title" ms with
                | Some t => t
                | None => f_title acc
                end /\
    f_author r = match patch_value "author" ms with
                 | Some a => a
                 | None => f_author acc
                 end /\
    f_error r = f_error acc.
Proof.
  induction 1 as [|[k v] ms Hm Hms IH]; intros acc; [simpl; auto|].
  cbn [fold_left patch_value]. simpl in Hm.
  destruct (IH (decode_member struct acc (k, v))) as [Ht [Ha He]].
  cbv zeta. rewrite Ht, Ha, He. clear Ht Ha He IH.
  unfold decode_member.
  destruct (key_is "title" k) eqn:Kt.
  - rewrite (keys_disjoint k Kt).
    destruct v; try (exfalso; apply Hm; now left);
      destruct (patch_value "title" ms), (patch_value "author" ms); auto.
  - destruct (key_is "author" k) eqn:Ka.
    + destruct v; try (exfalso; apply Hm; now right);
        destruct (patch_value "title" ms), (patch_value "author" ms); auto.
    + destruct (patch_value "title" ms), (patch_value "author" ms); auto.
Qed.

Lemma bind_update_reads_payload (ms : list (string * JValue)) :
  well_typed ms ->
  ShouldBindJSON_Update (Members ms) =
    Ok (mkUpdateBookInput
          (match patch_value "title" ms with Some t => t | None => "" end)
          (match patch_value "author" ms with Some a => a | None => "" end)).
Proof.
  intros Hwt. unfold ShouldBindJSON_Update, decode.
  destruct (decode_reads_payload "UpdateBookInput" ms Hwt (mkFields "" "" None))
    as [Ht [Ha He]].
  simpl in *. now rewrite He, Ht, Ha.
Qed.

(** C2. For every stored book (ids unique and positive) and every update
    payload whose [title] and [author] members, where present, carry
    strings, with a storage that serves the two calls, [UpdateBook]
    answers 200 with the book in which a field the payload provides
    non-empty has the payload's value and a field the payload omits, or
    provides empty, has its prior value; the id is kept, the stored row
    becomes that book, every other row, the order of the rows and the id
    counter are as before. *)
Theorem update_applies_non_empty_fields
        (c : Context) (w : World) (book : Book) (ms : list (string * JValue)) :
  NoDup (map ID (table (store w))) ->
  In book (table (store w)) ->
  parse_id (Param c "id") = Some (ID book) ->
  0 < ID book ->
  fault_at 0 w = false -> fault_at 1 w = false ->
  RequestBody c = Members ms ->
  well_typed ms ->
  exists (book' : Book) (w' : World),
    UpdateBook c w = (mkResponse StatusOK (H_data (DBook book')), w') /\
    ID book' = ID book /\
    Title book' = match patch_value "title" ms with
                  | Some t => if String.eqb t "" then Title book else t
                  | None => Title book
                  end /\
    Author book' = match patch_value "author" ms with
                   | Some a => if String.eqb a "" then Author book else a
                   | None => Author book
                   end /\
    table (store w') =
      map (fun r => if ID r =? ID book then book' else r) (table (store w)) /\
    (forall r, In r (table (store w)) -> r <> book -> In r (table (store w'))) /\
    sequence (store w') = sequence (store w).
Proof.
  intros Hnd Hin Hp Hpos Hf0 Hf1 Hbody Hwt.
  pose proof (select_first_stored _ _ _ Hnd Hin Hp) as Hs.
  pose proof (bind_update_reads_payload ms Hwt) as Hb. rewrite <- Hbody in Hb.
  eexists (merge book _). eexists.
  split; [exact (UpdateBook_run c w book _ Hs Hb Hpos Hf0 Hf1)|].
  set (input := mkUpdateBookInput _ _).
  cbn [store table sequence].
  assert (Ht : updated (ID book) input (table (store w)) =
               map (fun r => if ID r =? ID book then merge book input else r)
                   (table (store w))).
  { unfold updated. apply map_ext_in. intros r Hr. unfold has_id.
    destruct (N.eqb_spec (ID r) (ID book)) as [E|E]; [|reflexivity].
    now rewrite (unique_row _ _ _ Hnd Hr Hin E). }
  split; [reflexivity|]. split; [|split; [|split; [exact Ht|split; [|reflexivity]]]].
  - unfold input, merge, assign, is_zero. simpl.
    now destruct (patch_value "title" ms).
  - unfold input, merge, assign, is_zero. simpl.
    now destruct (patch_value "author" ms).
  - intros r Hr Hne. rewrite Ht. apply in_map_iff. exists r.
    split; [|assumption].
    destruct (N.eqb_spec (ID r) (ID book)) as [E|E]; [|reflexivity].
    exfalso. apply Hne. exact (unique_row _ _ _ Hnd Hr Hin E).
Qed.

(** C7. For every stored book (ids unique) whose lookup the storage serves,
    [UpdateBook] with the empty payload [{}] answers 200 with the book as it
    was stored, and the table and the id counter are as before. *)
Theorem empty_update_is_noop (c : Context) (w : World) (book : Book) :
  NoDup (map ID (table (store w))) ->
  In book (table (store w)) ->
  parse_id (Param c "id") = Some (ID book) ->
  fault_at 0 w = false ->
  RequestBody c = Members [] ->
  exists w' : World,
    UpdateBook c w = (mkResponse StatusOK (H_data (DBook book)), w') /\
    store w' = store w.
Proof.
  intros Hnd Hin Hp Hf0 Hbody.
  pose proof (select_first_stored _ _ _ Hnd Hin Hp) as Hs.
  unfold UpdateBook, bind at 1.
  rewrite (DB_Where_First_stored _ _ _ Hf0 Hs), Hbody.
  unfold DB_Model_Updates. run. eauto.
Qed.

(** ** Validation and storage access *)

Lemma CreateBook_invalid (c : Context) (w : World) (e : string) :
  ShouldBindJSON_Create (RequestBody c) = Err e ->
  CreateBook c w = (mkResponse StatusBadRequest (H_error e), w).
Proof. intros Hb. unfold CreateBook. now rewrite Hb. Qed.

Lemma UpdateBook_invalid (c : Context) (w : World) (e : string) :
  ShouldBindJSON_Update (RequestBody c) = Err e ->
  exists resp : Response,
    UpdateBook c w = (resp, looked_up (Param c "id") w) /\
    status resp = StatusBadRequest.
Proof.
  intros Hb. unfold UpdateBook, bind. rewrite DB_Where_First_run.
  destruct (fault_at 0 w); [now eexists|].
  destruct (select_first _ _); [|now eexists].
  rewrite Hb. now eexists.
Qed.

(** C3, amended. Create validates before any storage access: a payload the
    binder rejects is answered 400 with the binder's message and the world
    (table, pending faults, log of storage calls) is untouched.  Update
    looks the record up first: when its binder rejects the payload the
    answer is a 400, the lookup by id is the one storage call that was made
    and the stored data are untouched. *)
Theorem validation_and_storage_order (c : Context) (w : World) (e : string) :
  (ShouldBindJSON_Create (RequestBody c) = Err e ->
     CreateBook c w = (mkResponse StatusBadRequest (H_error e), w)) /\
  (ShouldBindJSON_Update (RequestBody c) = Err e ->
     exists (resp : Response) (w' : World),
       UpdateBook c w = (resp, w') /\
       status resp = StatusBadRequest /\
       queries w' = (queries w ++ [QFirst (Param c "id")])%list /\
       store w' = store w).
Proof.
  split.
  - apply CreateBook_invalid.
  - intros Hb. destruct (UpdateBook_invalid c w e Hb) as [resp [-> Hs]].
    exists resp, (looked_up (Param c "id") w). auto.
Qed.

(** ** Failures of the storage *)

(** C4. Where the code departs from the claim: a failure of the insert, of
    the update or of the delete is not looked at.  Create answers 200 with
    a book of id 0 that was never stored; update answers 200 with the new
    title although the stored row keeps the old one; delete answers 200
    [true] although the row is still there. *)
Theorem storage_failure_answered_with_success :
  CreateBook (mkContext [] start_with_why) (mkWorld (mkDB [] 0) [true] [])
    = (mkResponse StatusOK
         (H_data (DBook (mkBook 0 "Start with Why" "Simon Sinek"))),
       mkWorld (mkDB [] 0) []
               [QCreate (mkBook 0 "Start with Why" "Simon Sinek")]) /\
  UpdateBook (with_id "1" the_infinite_game) failing_write_world
    = (mkResponse StatusOK
         (H_data (DBook (mkBook 1 "The Infinite Game" "Simon Sinek"))),
       mkWorld (mkDB [mkBook 1 "Start with Why" "Simon Sinek"] 1) []
               [QFirst "1"; QUpdates 1]) /\
  DeleteBook (with_id "1" (Members [])) failing_write_world
    = (mkResponse StatusOK (H_data DTrue),
       mkWorld (mkDB [mkBook 1 "Start with Why" "Simon Sinek"] 1) []
               [QFirst "1"; QDelete 1]).
Proof. repeat split. Qed.

(** [ConnectDatabase] aborts the start when the connection cannot be
    opened, and returns without a database handle, and without aborting,
    when the migration fails. *)
Lemma ConnectDatabase_outcomes (migrate_err : bool) (fresh : DB) :
  ConnectDatabase true migrate_err fresh = Panic "Failed to connect to database!" /\
  ConnectDatabase false true fresh = Returned None /\
  ConnectDatabase false false fresh = Returned (Some fresh).
Proof. repeat split. Qed.

(** ** Ids that find nothing *)

Lemma invoke_connected (fresh : DB) (h : HandlerFunc) (c : Context) (w : World) :
  invoke (ConnectDatabase false false fresh) h c w
  = (Answered (fst (h c w)), snd (h c w)).
Proof. simpl. unfold bind, ret. now destruct (h c w). Qed.

(** With the handle left nil by a failed migration the handler panics. *)
Lemma invoke_nil (fresh : DB) (h : HandlerFunc) (c : Context) (w : World) :
  invoke (ConnectDatabase false true fresh) h c w = (Panicked, w).
Proof. reflexivity. Qed.

(** C5. For find-by-id, update and delete alike, in a process whose
    [ConnectDatabase] set the database handle: when the id parameter is
    not numeric (it holds no digit, or a character no number is written
    with), or is the decimal spelling of an id no stored row has, or is,
    more generally, matched by the storage to no stored row, the answer is
    status 400 with body [{"error": "Record not found!"}]; the handler
    does not panic, it does not answer with success, and the stored data
    are untouched. *)
Theorem unknown_id_is_record_not_found
        (open_err migrate_err : bool) (fresh : DB)
        (c : Context) (w : World) :
  ConnectDatabase open_err migrate_err fresh = Returned (Some fresh) ->
  malformed (Param c "id") \/ unused (Param c "id") (store w)
    \/ absent (Param c "id") (store w) ->
  forall h : HandlerFunc,
    In h [FindBook; UpdateBook; DeleteBook] ->
    exists w' : World,
      invoke (ConnectDatabase open_err migrate_err fresh) h c w
        = (Answered (mkResponse 400 (H_error "Record not found!")), w') /\
      h c w = (mkResponse 400 (H_error "Record not found!"), w') /\
      store w' = store w.
Proof.
  intros Hstart Hid h Hh.
  assert (Habs : absent (Param c "id") (store w)).
  { destruct Hid as [Hm|[Hu|Ha]];
      [now apply malformed_absent|now apply unused_absent|assumption]. }
  assert (Hrun : h c w = (mkResponse 400 (H_error "Record not found!"),
                          looked_up (Param c "id") w)).
  { simpl in Hh. destruct Hh as [<-|[<-|[<-|[]]]].
    - now apply FindBook_absent.
    - now apply UpdateBook_absent.
    - now apply DeleteBook_absent. }
  exists (looked_up (Param c "id") w).
  split; [|split; [exact Hrun|reflexivity]].
  destruct open_err, migrate_err; try discriminate Hstart.
  now rewrite invoke_connected, Hrun.
Qed.

(** C10. In update the lookup comes before the body is looked at: when the
    id parameter is not numeric, or is the decimal spelling of an id no
    stored row has, or is matched by the storage to no stored row, the
    answer is the fixed 400 ["Record not found!"] for every body, also one
    that does not parse or that the binder would reject; the binder's
    message is not what is returned, and only the lookup is issued. *)
Theorem update_checks_existence_before_body
        (p : string) (b : Body) (w : World) :
  malformed p \/ unused p (store w) \/ absent p (store w) ->
  exists w' : World,
    UpdateBook (with_id p b) w
      = (mkResponse StatusBadRequest (H_error "Record not found!"), w') /\
    queries w' = (queries w ++ [QFirst p])%list /\
    (forall e, ShouldBindJSON_Update b = Err e ->
               e <> "Record not found!" ->
               fst (UpdateBook (with_id p b) w)
               <> mkResponse StatusBadRequest (H_error e)).
Proof.
  intros Hid.
  assert (Habs : absent p (store w)).
  { destruct Hid as [Hm|[Hu|Ha]];
      [now apply malformed_absent|now apply unused_absent|assumption]. }
  exists (looked_up p w).
  rewrite (UpdateBook_absent (with_id p b) w Habs).
  repeat split. intros e _ Hne [= E]. now apply Hne.
Qed.

(** ** Delete *)

Lemma removed_In (n : N) (t : list Book) (r : Book) :
  In r (removed n t) <-> In r t /\ ID r <> n.
Proof.
  unfold removed. rewrite filter_In, negb_true_iff, has_id_false. tauto.
Qed.

Lemma removed_NoDup (n : N) (t : list Book) :
  NoDup (map ID t) -> NoDup (map ID (removed n t)).
Proof.
  induction t as [|r t IH]; simpl; intros Hnd; [constructor|].
  inversion Hnd as [|? ? Hnotin Hnd']; subst.
  destruct (negb (has_id n r)); simpl; [|now apply IH].
  constructor; [|now apply IH].
  intros Hin. apply Hnotin. apply in_map_iff in Hin as [x [Hx Hin]].
  apply removed_In in Hin as [Hin _]. rewrite <- Hx. now apply in_map.
Qed.

Lemma select_first_some_id (p : string) (t : list Book) (book : Book) :
  In book t -> parse_id p = Some (ID book) ->
  exists b0, select_first p t = Some b0 /\ ID b0 = ID book.
Proof.
  intros Hin Hp. rewrite (select_first_numeral _ _ _ Hp).
  destruct (find (has_id (ID book)) t) as [b0|] eqn:E.
  - exists b0. split; [reflexivity|]. now apply find_has_id in E.
  - rewrite find_none_iff in E. now specialize (E book Hin).
Qed.

Lemma DeleteBook_run (c : Context) (w : World) (b0 : Book) :
  select_first (Param c "id") (table (store w)) = Some b0 ->
  0 < ID b0 -> fault_at 0 w = false -> fault_at 1 w = false ->
  DeleteBook c w =
    (mkResponse StatusOK (H_data DTrue),
     mkWorld (mkDB (removed (ID b0) (table (store w))) (sequence (store w)))
             (tl (tl (faults w)))
             ((queries w ++ [QFirst (Param c "id")]) ++ [QDelete (ID b0)])).
Proof.
  intros Hs Hpos Hf0 Hf1. unfold DeleteBook, bind at 1.
  rewrite (DB_Where_First_stored _ _ _ Hf0 Hs).
  unfold fault_at in Hf1. unfold DB_Delete. run.
  apply N.lt_neq, not_eq_sym, N.eqb_neq in Hpos. rewrite Hpos.
  destruct (faults w) as [|f0 [|f1 fs]]; simpl in *; try reflexivity.
  now rewrite Hf1.
Qed.

(** C6. For every stored book (id positive) and a storage that serves the
    lookup and the removal, [DeleteBook] answers 200 [{"data": true}] and
    the table afterwards holds exactly the rows of other ids; [FindBook]
    on the same id then answers the 400 not-found response, and so does a
    second [DeleteBook] on it, which changes nothing.  [DeleteBook] on the
    decimal spelling of an id that no stored row has, and more generally
    on any id the storage matches to no stored row, answers that same
    not-found response. *)
Theorem delete_then_not_found
        (c : Context) (w : World) (book : Book) (c' : Context) (w' : World) :
  In book (table (store w)) ->
  parse_id (Param c "id") = Some (ID book) ->
  0 < ID book ->
  fault_at 0 w = false -> fault_at 1 w = false ->
  unused (Param c' "id") (store w') \/ absent (Param c' "id") (store w') ->
  (exists w1 w2 w3 : World,
     DeleteBook c w = (mkResponse StatusOK (H_data DTrue), w1) /\
     (forall r, In r (table (store w1)) <->
                In r (table (store w)) /\ ID r <> ID book) /\
     ~ In book (table (store w1)) /\
     FindBook c w1 = (mkResponse StatusBadRequest not_found, w2) /\
     DeleteBook c w1 = (mkResponse StatusBadRequest not_found, w3) /\
     store w3 = store w1) /\
  (exists w3' : World,
     DeleteBook c' w' = (mkResponse StatusBadRequest not_found, w3') /\
     store w3' = store w').
Proof.
  intros Hin Hp Hpos Hf0 Hf1 Hid'.
  assert (Habs' : absent (Param c' "id") (store w')).
  { destruct Hid' as [Hu|Ha]; [now apply unused_absent|assumption]. }
  split.
  - destruct (select_first_some_id _ _ _ Hin Hp) as [b0 [Hs Hid]].
    rewrite <- Hid in Hpos.
    eexists _, _, _.
    split; [exact (DeleteBook_run c w b0 Hs Hpos Hf0 Hf1)|].
    set (w1 := mkWorld _ _ _).
    assert (Habs : absent (Param c "id") (store w1)).
    { intros r Hr. subst w1. simpl in Hr. apply removed_In in Hr as [_ Hne].
      rewrite (parse_id_matches _ _ _ Hp). apply N.eqb_neq. congruence. }
    split; [|split; [|split; [|split]]].
    + intros r. subst w1. simpl. rewrite removed_In, Hid. tauto.
    + subst w1. simpl. rewrite removed_In. intros [_ Hne]. now apply Hne.
    + exact (FindBook_absent c w1 Habs).
    + exact (DeleteBook_absent c w1 Habs).
    + reflexivity.
  - eexists. split; [exact (DeleteBook_absent c' w' Habs')|reflexivity].
Qed.

(** ** The route table *)

Lemma PATCH_has_no_route (segs : list string) :
  lookup_route routes PATCH segs = None.
Proof. reflexivity. Qed.

(** C9. Where the code departs from the claim: [main] registers the update
    handler under PUT only.  A PATCH request, whatever its path and body,
    matches no route: no handler runs and the world is untouched.  The same
    request sent with PUT runs the update handler. *)
Theorem patch_is_not_routed :
  (forall (segs : list string) (b : Body) (w : World),
     serve (mkRequest PATCH segs b) w = (None, w)) /\
  lookup_route routes PUT ["books"; "1"] = Some (UpdateBook, [("id", "1")]) /\
  serve (mkRequest PATCH ["books"; "1"] the_infinite_game) one_book_world
    = (None, one_book_world) /\
  fst (serve (mkRequest PUT ["books"; "1"] the_infinite_game) one_book_world)
    = Some (mkResponse StatusOK
              (H_data (DBook (mkBook 1 "The Infinite Game" "Simon Sinek")))).
Proof. repeat split. Qed.

(** ** Ids: generated, kept, unique *)

Lemma NoDup_snoc (l : list N) (x : N) :
  NoDup l -> ~ In x l -> NoDup (l ++ [x]).
Proof.
  induction l as [|y l IH]; simpl; intros Hnd Hx.
  - constructor; [tauto|constructor].
  - inversion Hnd as [|? ? Hy Hnd']; subst. constructor.
    + rewrite in_app_iff. simpl. intros [H|[H|[]]]; [tauto|]. apply Hx. now left.
    + apply IH; [assumption|]. intros H. apply Hx. now right.
Qed.

Lemma next_id_not_stored (d : DB) : ~ In (next_id d) (map ID (table d)).
Proof.
  intros Hin. apply in_map_iff in Hin as [b [E Hb]].
  apply next_id_fresh in Hb. lia.
Qed.

Lemma FindBooks_store (c : Context) (w : World) :
  store (snd (FindBooks c w)) = store w.
Proof.
  unfold FindBooks, DB_Find. run. now destruct (hd false (faults w)).
Qed.

Lemma FindBook_store (c : Context) (w : World) :
  store (snd (FindBook c w)) = store w.
Proof.
  unfold FindBook, bind. rewrite DB_Where_First_run.
  destruct (fault_at 0 w); [reflexivity|].
  now destruct (select_first _ _).
Qed.

Lemma CreateBook_ids (c : Context) (w : World) :
  ids (snd (CreateBook c w)) = ids w \/
  ids (snd (CreateBook c w)) = (ids w ++ [next_id (store w)])%list.
Proof.
  unfold CreateBook, ids.
  destruct (ShouldBindJSON_Create (RequestBody c)); [|now left].
  unfold DB_Create. run.
  destruct (hd false (faults w)); simpl; [now left|].
  right. now rewrite map_app.
Qed.

Lemma UpdateBook_ids (c : Context) (w : World) :
  ids (snd (UpdateBook c w)) = ids w.
Proof.
  unfold UpdateBook, ids, bind at 1. rewrite DB_Where_First_run.
  destruct (fault_at 0 w); [reflexivity|].
  destruct (select_first _ _) as [book|]; [|reflexivity].
  destruct (ShouldBindJSON_Update (RequestBody c)) as [input|e]; [|reflexivity].
  unfold DB_Model_Updates. run.
  destruct (nothing_to_set input); [reflexivity|].
  destruct (ID book =? 0); [reflexivity|].
  destruct (hd false (tl (faults w))); [reflexivity|].
  simpl. apply updated_ids.
Qed.

Lemma DeleteBook_table (c : Context) (w : World) :
  table (store (snd (DeleteBook c w))) = table (store w) \/
  exists n, table (store (snd (DeleteBook c w))) = removed n (table (store w)).
Proof.
  unfold DeleteBook, bind. rewrite DB_Where_First_run.
  destruct (fault_at 0 w); [now left|].
  destruct (select_first _ _) as [book|]; [|now left].
  unfold DB_Delete. run.
  destruct (ID book =? 0); [now left|].
  destruct (hd false (tl (faults w))); [now left|].
  right. now exists (ID book).
Qed.

Lemma routed_handler (m : Method) (segs : list string)
      (h : HandlerFunc) (ps : list (string * string)) :
  lookup_route routes m segs = Some (h, ps) -> In h handlers.
Proof.
  unfold routes, handlers.
  destruct m; cbn [lookup_route Method_eqb];
    repeat match goal with
           | |- context [match_path ?p segs] => destruct (match_path p segs)
           end;
    intros [= <- <-] || discriminate; simpl; auto 10.
Qed.

Lemma handler_keeps_ids_unique (h : HandlerFunc) (c : Context) (w : World) :
  In h handlers -> NoDup (ids w) -> NoDup (ids (snd (h c w))).
Proof.
  unfold handlers. simpl. intros [<-|[<-|[<-|[<-|[<-|[]]]]]] Hnd.
  - unfold ids. now rewrite FindBooks_store.
  - unfold ids. now rewrite FindBook_store.
  - destruct (CreateBook_ids c w) as [->| ->]; [assumption|].
    apply NoDup_snoc; [assumption|]. apply next_id_not_stored.
  - now rewrite UpdateBook_ids.
  - unfold ids in *. destruct (DeleteBook_table c w) as [->|[n ->]];
      [assumption|]. now apply removed_NoDup.
Qed.

(** C8. (1) For a create payload that passes validation and a storage that
    serves the insert, the id of the created book is the one the storage
    hands out: one more than the largest id that is or ever was in the
    table, hence positive and different from every stored id, whatever
    [id] member the request body carries or lacks.  (2) No update, whatever
    its id parameter, body and storage faults, changes the ids in the
    table.  (3) Whatever request is served, unique ids stay unique. *)
Theorem ids_generated_immutable_unique
        (ps : list (string * string)) (v : JValue)
        (ms : list (string * JValue)) (input : CreateBookInput) (w : World)
        (c' : Context) (w' : World) (req : Request) (w'' : World) :
  ShouldBindJSON_Create (Members ms) = Ok input ->
  fault_at 0 w = false ->
  NoDup (ids w'') ->
  (exists (book : Book) (w1 : World),
     CreateBook (mkContext ps (Members (("id", v) :: ms))) w
       = (mkResponse StatusOK (H_data (DBook book)), w1) /\
     CreateBook (mkContext ps (Members ms)) w
       = (mkResponse StatusOK (H_data (DBook book)), w1) /\
     ID book = N.max (sequence (store w)) (max_id (table (store w))) + 1 /\
     0 < ID book /\
     (forall r, In r (table (store w)) -> ID r < ID book) /\
     table (store w1) = (table (store w) ++ [book])%list) /\
  ids (snd (UpdateBook c' w')) = ids w' /\
  NoDup (ids (snd (serve req w''))).
Proof.
  intros Hb Hf Hnd. split; [|split].
  - eexists _, _. split; [|split].
    + apply (CreateBook_run _ w input); [|assumption].
      cbn [RequestBody]. now rewrite bind_create_ignores_id.
    + apply (CreateBook_run _ w input); assumption.
    + simpl. repeat split.
      * apply next_id_positive.
      * intros r. apply next_id_fresh.
  - apply UpdateBook_ids.
  - unfold serve.
    destruct (lookup_route routes (method req) (path req)) as [[h ps']|] eqn:E;
      [|assumption].
    apply routed_handler in E. unfold bind.
    pose proof (handler_keeps_ids_unique h (mkContext ps' (body req)) w'' E Hnd)
      as Hk.
    now destruct (h (mkContext ps' (body req)) w'').
Qed.

(* ===================================================================== *)
(** * Further properties of the handlers and of the route table *)
(* ===================================================================== *)

(** ** Every outcome of a handler *)

Lemma FindBooks_run (c : Context) (w : World) :
  FindBooks c w =
    (mkResponse StatusOK
       (H_data (DBooks (if fault_at 0 w then [] else table (store w)))),
     mkWorld (store w) (tl (faults w)) (queries w ++ [QFind])).
Proof.
  rewrite fault_at_0. unfold FindBooks, DB_Find. run.
  now destruct (hd false (faults w)).
Qed.

Lemma FindBook_cases (c : Context) (w : World) :
  FindBook c w = (mkResponse StatusBadRequest not_found,
                  looked_up (Param c "id") w) \/
  exists book,
    fault_at 0 w = false /\
    select_first (Param c "id") (table (store w)) = Some book /\
    FindBook c w = (mkResponse StatusOK (H_data (DBook book)),
                    looked_up (Param c "id") w).
Proof.
  unfold FindBook, bind. rewrite DB_Where_First_run.
  destruct (fault_at 0 w); [now left|].
  destruct (select_first _ _) as [book|]; [|now left].
  right. now exists book.
Qed.

Lemma CreateBook_cases (c : Context) (w : World) :
  (exists e, ShouldBindJSON_Create (RequestBody c) = Err e /\
     CreateBook c w = (mkResponse StatusBadRequest (H_error e), w)) \/
  exists input,
    ShouldBindJSON_Create (RequestBody c) = Ok input /\
    let draft := mkBook 0 (CreateBookInput_Title input)
                          (CreateBookInput_Author input) in
    let book := mkBook (next_id (store w)) (CreateBookInput_Title input)
                       (CreateBookInput_Author input) in
    (fault_at 0 w = true /\
     CreateBook c w =
       (mkResponse StatusOK (H_data (DBook draft)),
        mkWorld (store w) (tl (faults w)) (queries w ++ [QCreate draft])))
    \/
    (fault_at 0 w = false /\
     CreateBook c w =
       (mkResponse StatusOK (H_data (DBook book)),
        mkWorld (mkDB (table (store w) ++ [book]) (next_id (store w)))
                (tl (faults w)) (queries w ++ [QCreate draft]))).
Proof.
  destruct (ShouldBindJSON_Create (RequestBody c)) as [input|e] eqn:Hb.
  - right. exists input. split; [reflexivity|]. simpl.
    destruct (fault_at 0 w) eqn:Hf.
    + left. split; [reflexivity|]. rewrite fault_at_0 in Hf.
      unfold CreateBook. rewrite Hb. unfold DB_Create. run. now rewrite Hf.
    + right. split; [reflexivity|]. now apply CreateBook_run.
  - left. exists e. split; [reflexivity|]. now apply CreateBook_invalid.
Qed.

Lemma UpdateBook_cases (c : Context) (w : World) :
  UpdateBook c w = (mkResponse StatusBadRequest not_found,
                    looked_up (Param c "id") w) \/
  exists book,
    fault_at 0 w = false /\
    select_first (Param c "id") (table (store w)) = Some book /\
    ((exists e, ShouldBindJSON_Update (RequestBody c) = Err e /\
        UpdateBook c w = (mkResponse StatusBadRequest (H_error e),
                          looked_up (Param c "id") w)) \/
     exists input t',
       ShouldBindJSON_Update (RequestBody c) = Ok input /\
       (t' = table (store w) \/
        (fault_at 1 w = false /\ 0 < ID book /\
         t' = updated (ID book) input (table (store w)))) /\
       UpdateBook c w =
         (mkResponse StatusOK (H_data (DBook (merge book input))),
          mkWorld (mkDB t' (sequence (store w))) (tl (tl (faults w)))
                  ((queries w ++ [QFirst (Param c "id")])
                     ++ [QUpdates (ID book)]))).
Proof.
  assert (Hf1 : hd false (tl (faults w)) = fault_at 1 w).
  { unfold fault_at. now destruct (faults w) as [|? [|? ?]]. }
  remember (UpdateBook c w) as out eqn:Hout.
  unfold UpdateBook, bind at 1 in Hout. rewrite DB_Where_First_run in Hout.
  destruct (fault_at 0 w) eqn:Hf0; [now left|].
  destruct (select_first _ _) as [book|] eqn:Hs; [|now left].
  right. exists book. do 2 (split; [reflexivity|]).
  destruct (ShouldBindJSON_Update (RequestBody c)) as [input|e] eqn:Hb.
  - right. exists input.
    unfold DB_Model_Updates, JSON, bind, ret, issue, get_store, put_table in Hout.
    simpl in Hout. rewrite Hf1 in Hout.
    destruct (nothing_to_set input) eqn:Hn.
    + exists (table (store w)). split; [reflexivity|]. split; [now left|].
      rewrite merge_nothing by assumption. now destruct (store w).
    + destruct (N.eqb_spec (ID book) 0) as [E|E].
      * exists (table (store w)). split; [reflexivity|]. split; [now left|].
        now destruct (store w).
      * destruct (fault_at 1 w).
        -- exists (table (store w)). split; [reflexivity|]. split; [now left|].
           now destruct (store w).
        -- exists (updated (ID book) input (table (store w))).
           split; [reflexivity|]. split; [|assumption].
           right. repeat split. lia.
  - left. now exists e.
Qed.

Lemma DeleteBook_cases (c : Context) (w : World) :
  DeleteBook c w = (mkResponse StatusBadRequest not_found,
                    looked_up (Param c "id") w) \/
  exists book t',
    fault_at 0 w = false /\
    select_first (Param c "id") (table (store w)) = Some book /\
    (t' = table (store w) \/
     (fault_at 1 w = false /\ 0 < ID book /\
      t' = removed (ID book) (table (store w)))) /\
    DeleteBook c w =
      (mkResponse StatusOK (H_data DTrue),
       mkWorld (mkDB t' (sequence (store w))) (tl (tl (faults w)))
               ((queries w ++ [QFirst (Param c "id")])
                  ++ [QDelete (ID book)])).
Proof.
  assert (Hf1 : hd false (tl (faults w)) = fault_at 1 w).
  { unfold fault_at. now destruct (faults w) as [|? [|? ?]]. }
  remember (DeleteBook c w) as out eqn:Hout.
  unfold DeleteBook, bind at 1 in Hout. rewrite DB_Where_First_run in Hout.
  destruct (fault_at 0 w) eqn:Hf0; [now left|].
  destruct (select_first _ _) as [book|] eqn:Hs; [|now left].
  right. exists book.
  unfold DB_Delete, JSON, bind, ret, issue, get_store, put_table in Hout.
  simpl in Hout. rewrite Hf1 in Hout.
  destruct (N.eqb_spec (ID book) 0) as [E|E].
  - exists (table (store w)). do 2 (split; [reflexivity|]).
    split; [now left|]. now destruct (store w).
  - destruct (fault_at 1 w).
    + exists (table (store w)). do 2 (split; [reflexivity|]).
      split; [now left|]. now destruct (store w).
    + exists (removed (ID book) (table (store w))).
      do 2 (split; [reflexivity|]). split; [|assumption].
      right. repeat split. lia.
Qed.

(** ** The route table *)

Lemma match_path_books (segs : list string) (ps : list (string * string)) :
  match_path ["books"] segs = Some ps <-> segs = ["books"] /\ ps = [].
Proof.
  destruct segs as [|s [|s2 rest]]; cbn [match_path].
  - split; [discriminate|intros [E _]; discriminate E].
  - destruct (String.eqb_spec "books" s) as [<-|Hne].
    + split; [intros [= <-]; auto|intros [_ ->]; reflexivity].
    + split; [discriminate|intros [[= E] _]; now symmetry in E].
  - destruct (String.eqb "books" s);
      (split; [discriminate|intros [E _]; discriminate E]).
Qed.

Lemma match_path_books_id (segs : list string) (ps : list (string * string)) :
  match_path ["books"; ":id"] segs = Some ps <->
  exists id, id <> "" /\ segs = ["books"; id] /\ ps = [("id", id)].
Proof.
  destruct segs as [|s [|id [|s3 rest]]]; cbn [match_path option_map].
  - split; [discriminate|intros [id [_ [E _]]]; discriminate E].
  - destruct (String.eqb "books" s);
      (split; [discriminate|intros [id [_ [E _]]]; discriminate E]).
  - destruct (String.eqb_spec "books" s) as [<-|Hne].
    + unfold is_zero. destruct (String.eqb_spec id "") as [->|Hid].
      * split; [discriminate|intros [id [Hid [[= <-] _]]]; now elim Hid].
      * split.
        -- intros [= <-]. now exists id.
        -- intros [id' [_ [[= <-] ->]]]. reflexivity.
    + split; [discriminate|intros [id' [_ [[= E _] _]]]; now symmetry in E].
  - destruct (String.eqb "books" s); [destruct (is_zero id)|];
      (split; [discriminate|intros [id' [_ [E _]]]; discriminate E]).
Qed.

(** Which route a successful lookup in the table of [main] took. *)
Lemma lookup_route_inv (m : Method) (segs : list string)
        (h : HandlerFunc) (ps : list (string * string)) :
  lookup_route routes m segs = Some (h, ps) ->
  (segs = ["books"] /\ ps = [] /\
   ((m = GET /\ h = FindBooks) \/ (m = POST /\ h = CreateBook))) \/
  (exists id, id <> "" /\ segs = ["books"; id] /\ ps = [("id", id)] /\
     ((m = GET /\ h = FindBook) \/ (m = PUT /\ h = UpdateBook) \/
      (m = DELETE /\ h = DeleteBook))).
Proof.
  unfold routes.
  destruct m; cbn [lookup_route Method_eqb]; try discriminate.
  - destruct (match_path ["books"] segs) as [ps1|] eqn:E1.
    + intros [= <- <-]. apply match_path_books in E1 as [-> ->]. left. auto 10.
    + destruct (match_path ["books"; ":id"] segs) as [ps2|] eqn:E2;
        [|discriminate].
      intros [= <- <-]. apply match_path_books_id in E2 as [id [? [? ?]]].
      right. exists id. auto 10.
  - destruct (match_path ["books"] segs) as [ps1|] eqn:E1; [|discriminate].
    intros [= <- <-]. apply match_path_books in E1 as [-> ->]. left. auto 10.
  - destruct (match_path ["books"; ":id"] segs) as [ps2|] eqn:E2;
      [|discriminate].
    intros [= <- <-]. apply match_path_books_id in E2 as [id [? [? ?]]].
    right. exists id. auto 10.
  - destruct (match_path ["books"; ":id"] segs) as [ps2|] eqn:E2;
      [|discriminate].
    intros [= <- <-]. apply match_path_books_id in E2 as [id [? [? ?]]].
    right. exists id. auto 10.
Qed.

(** X1. What a routed request looks like.  A request reaches a handler of
    the program only as one of the five registered pairs of method and
    path, and the handler is given exactly the parameters the path binds:
    none for [/books], the non-empty second segment as [id] for
    [/books/:id]. *)
Theorem routing_sound (m : Method) (segs : list string)
        (h : HandlerFunc) (ps : list (string * string)) :
  lookup_route routes m segs = Some (h, ps) ->
  (segs = ["books"] /\ ps = [] /\
   ((m = GET /\ h = FindBooks) \/ (m = POST /\ h = CreateBook))) \/
  (exists id, id <> "" /\ segs = ["books"; id] /\ ps = [("id", id)] /\
     ((m = GET /\ h = FindBook) \/ (m = PUT /\ h = UpdateBook) \/
      (m = DELETE /\ h = DeleteBook))).
Proof. apply lookup_route_inv. Qed.

(** X2. The five routes.  [/books] reaches [FindBooks] with GET and
    [CreateBook] with POST; [/books/<id>] with a non-empty [id] reaches
    [FindBook] with GET, [UpdateBook] with PUT and [DeleteBook] with DELETE,
    and [c.Param("id")] is then that segment. *)
Theorem routing_complete (id : string) (b : Body) :
  id <> "" ->
  lookup_route routes GET ["books"] = Some (FindBooks, []) /\
  lookup_route routes POST ["books"] = Some (CreateBook, []) /\
  lookup_route routes GET ["books"; id] = Some (FindBook, [("id", id)]) /\
  lookup_route routes PUT ["books"; id] = Some (UpdateBook, [("id", id)]) /\
  lookup_route routes DELETE ["books"; id] = Some (DeleteBook, [("id", id)]) /\
  Param (mkContext [("id", id)] b) "id" = id.
Proof.
  intros Hid. apply String.eqb_neq in Hid.
  unfold routes, Param, is_zero.
  repeat (cbn [lookup_route Method_eqb match_path option_map find fst snd Params];
          rewrite ?String.eqb_refl, ?Hid).
  repeat split; unfold is_zero; now rewrite Hid.
Qed.

(** X3. The route table of [main.go] against the one of the README.  After
    exchanging PUT and PATCH the two tables send every request to the same
    handler with the same parameters: they differ in the method of the
    update route and in nothing else, the order of registration included. *)
Theorem routes_differ_in_update_method (m : Method) (segs : list string) :
  lookup_route routes_tutorial (swap_update_method m) segs
  = lookup_route routes m segs.
Proof.
  unfold routes, routes_tutorial.
  destruct m; cbn [lookup_route Method_eqb swap_update_method];
    reflexivity.
Qed.

(** ** Serving a request *)

Lemma serve_routed (r : Request) (w : World) (resp : Response) (w' : World) :
  serve r w = (Some resp, w') ->
  exists h ps,
    lookup_route routes (method r) (path r) = Some (h, ps) /\
    h (mkContext ps (body r)) w = (resp, w').
Proof.
  unfold serve.
  destruct (lookup_route routes (method r) (path r)) as [[h ps]|];
    [|discriminate].
  unfold bind, ret. destruct (h (mkContext ps (body r)) w) as [resp0 w0] eqn:E.
  intros [= <- <-]. now exists h, ps.
Qed.

Lemma serve_run (r : Request) (w : World) :
  serve r w = (None, w) \/
  exists h ps,
    lookup_route routes (method r) (path r) = Some (h, ps) /\
    serve r w = (Some (fst (h (mkContext ps (body r)) w)),
                 snd (h (mkContext ps (body r)) w)).
Proof.
  unfold serve.
  destruct (lookup_route routes (method r) (path r)) as [[h ps]|];
    [|now left].
  right. exists h, ps. split; [reflexivity|]. unfold bind, ret.
  now destruct (h (mkContext ps (body r)) w).
Qed.

Lemma select_first_some (p : string) (t : list Book) (b : Book) :
  select_first p t = Some b -> In b t /\ id_matches p (ID b) = true.
Proof. unfold select_first. intros Hf. now apply find_some in Hf. Qed.

Ltac envelope :=
  simpl; unfold not_found;
  solve [ left; split; [reflexivity|eexists; reflexivity]
        | right; split; [reflexivity|eexists; reflexivity] ].

Lemma handler_enveloped (h : HandlerFunc) (c : Context) (w : World) :
  In h handlers -> enveloped (fst (h c w)).
Proof.
  unfold handlers, enveloped. simpl. intros [<-|[<-|[<-|[<-|[<-|[]]]]]].
  - rewrite FindBooks_run. envelope.
  - destruct (FindBook_cases c w) as [->|[b [_ [_ ->]]]]; envelope.
  - destruct (CreateBook_cases c w)
      as [[e [_ ->]]|[input [_ [[_ ->]|[_ ->]]]]]; envelope.
  - destruct (UpdateBook_cases c w)
      as [->|[b [_ [_ [[e [_ ->]]|[input [t' [_ [_ ->]]]]]]]]]; envelope.
  - destruct (DeleteBook_cases c w) as [->|[b [t' [_ [_ [_ ->]]]]]]; envelope.
Qed.

Lemma handler_error_keeps_world (h : HandlerFunc) (c : Context) (w : World) :
  In h handlers -> status (fst (h c w)) = 400 ->
  store (snd (h c w)) = store w /\
  (queries (snd (h c w)) = queries w \/
   queries (snd (h c w)) = (queries w ++ [QFirst (Param c "id")])%list).
Proof.
  unfold handlers. simpl. intros [<-|[<-|[<-|[<-|[<-|[]]]]]].
  - rewrite FindBooks_run. discriminate.
  - destruct (FindBook_cases c w) as [->|[b [_ [_ ->]]]]; simpl;
      first [discriminate|auto].
  - destruct (CreateBook_cases c w)
      as [[e [_ ->]]|[input [_ [[_ ->]|[_ ->]]]]]; simpl;
      first [discriminate|auto].
  - destruct (UpdateBook_cases c w)
      as [->|[b [_ [_ [[e [_ ->]]|[input [t' [_ [_ ->]]]]]]]]]; simpl;
      first [discriminate|auto].
  - destruct (DeleteBook_cases c w) as [->|[b [t' [_ [_ [_ ->]]]]]]; simpl;
      first [discriminate|auto].
Qed.

(** X4. The envelope.  Whatever request a handler answers, and whatever the
    storage does, the answer is either status 200 with a [data] body or
    status 400 with an [error] body; no other status and no mixed form is
    ever produced. *)
Theorem served_response_enveloped
        (r : Request) (w : World) (resp : Response) (w' : World) :
  serve r w = (Some resp, w') -> enveloped resp.
Proof.
  intros Hs. apply serve_routed in Hs as [h [ps [Hr Hh]]].
  apply routed_handler in Hr.
  pose proof (handler_enveloped h (mkContext ps (body r)) w Hr) as He.
  now rewrite Hh in He.
Qed.

(** X5. A refused request changes nothing.  Whenever a request is answered
    with status 400, the table and the id counter are as before, and the
    only storage call that can have been made is the lookup by id. *)
Theorem error_response_keeps_store
        (r : Request) (w : World) (resp : Response) (w' : World) :
  serve r w = (Some resp, w') -> status resp = 400 ->
  store w' = store w /\
  (queries w' = queries w \/
   exists p, queries w' = (queries w ++ [QFirst p])%list).
Proof.
  intros Hs H400. apply serve_routed in Hs as [h [ps [Hr Hh]]].
  apply routed_handler in Hr.
  pose proof (handler_error_keeps_world h (mkContext ps (body r)) w Hr) as He.
  rewrite Hh in He. simpl in He. destruct (He H400) as [Hst [Hq|Hq]]; eauto.
Qed.

(** X6. GET is safe.  A GET request, whatever its path, its body and the
    faults of the storage, leaves the table and the id counter as they
    were. *)
Theorem GET_keeps_store (segs : list string) (b : Body) (w : World) :
  store (snd (serve (mkRequest GET segs b) w)) = store w.
Proof.
  destruct (serve_run (mkRequest GET segs b) w) as [->|[h [ps [Hr ->]]]];
    [reflexivity|].
  cbn [method path body] in *. apply lookup_route_inv in Hr.
  destruct Hr as [[_ [_ [[_ ->]|[E _]]]]|[id [_ [_ [_ [[_ ->]|[[E _]|[E _]]]]]]]];
    try discriminate E.
  - apply FindBooks_store.
  - apply FindBook_store.
Qed.

(** X7. What [FindBook] hands out.  When [FindBook] answers 200 with a
    book, that book is a row of the table whose id the storage matched to
    the id parameter: the parameter is numeric and, when it is in integer
    notation, it denotes the id of the book.  The request made the lookup
    and nothing else. *)
Theorem FindBook_sound (c : Context) (w : World) (b : Book) (w' : World) :
  FindBook c w = (mkResponse StatusOK (H_data (DBook b)), w') ->
  In b (table (store w)) /\
  id_matches (Param c "id") (ID b) = true /\
  ~ malformed (Param c "id") /\
  (forall n, parse_id (Param c "id") = Some n -> ID b = n) /\
  w' = looked_up (Param c "id") w.
Proof.
  destruct (FindBook_cases c w) as [->|[b0 [_ [Hs ->]]]]; [discriminate|].
  intros [= <- <-]. apply select_first_some in Hs as [Hin Hm].
  repeat split; try assumption.
  - intros Hmal. now rewrite (malformed_matches_nothing _ _ Hmal) in Hm.
  - intros n Hn. rewrite (parse_id_matches _ _ _ Hn) in Hm.
    symmetry. now apply N.eqb_eq.
Qed.

Lemma Param_id (id : string) (b : Body) :
  Param (mkContext [("id", id)] b) "id" = id.
Proof. reflexivity. Qed.

Lemma updated_keeps_other (n : N) (input : UpdateBookInput) (t : list Book)
      (b : Book) :
  In b t -> ID b <> n -> In b (updated n input t).
Proof.
  intros Hin Hne. unfold updated. apply in_map_iff. exists b.
  apply has_id_false in Hne. now rewrite Hne.
Qed.

(** X8. A request touches the book it names and no other.  A stored row is
    still in the table, unchanged, after any request whatsoever, unless
    the request's path is [/books/<p>] with [p] a text that the storage
    matches to that row's id. *)
Theorem other_books_untouched (r : Request) (w : World) (b : Book) :
  In b (table (store w)) ->
  (forall p, path r = ["books"; p] -> id_matches p (ID b) = false) ->
  In b (table (store (snd (serve r w)))).
Proof.
  intros Hin Hp.
  destruct (serve_run r w) as [->|[h [ps [Hr ->]]]]; [assumption|].
  cbn [snd]. apply lookup_route_inv in Hr.
  destruct Hr as [[_ [_ [[_ ->]|[_ ->]]]]
                 |[id [_ [Hpath [-> [[_ ->]|[[_ ->]|[_ ->]]]]]]]].
  - now rewrite FindBooks_store.
  - destruct (CreateBook_cases (mkContext ps (body r)) w)
      as [[e [_ ->]]|[input [_ [[_ ->]|[_ ->]]]]]; simpl; auto.
    apply in_or_app. now left.
  - now rewrite FindBook_store.
  - specialize (Hp id Hpath).
    destruct (UpdateBook_cases (mkContext [("id", id)] (body r)) w)
      as [->|[b0 [_ [Hs [[e [_ ->]]|[input [t' [_ [Ht ->]]]]]]]]];
      simpl; auto.
    destruct Ht as [->|[_ [_ ->]]]; [assumption|].
    rewrite Param_id in Hs. apply select_first_some in Hs as [_ Hs].
    apply updated_keeps_other; [assumption|]. congruence.
  - specialize (Hp id Hpath).
    destruct (DeleteBook_cases (mkContext [("id", id)] (body r)) w)
      as [->|[b0 [t' [_ [Hs [Ht ->]]]]]]; simpl; auto.
    destruct Ht as [->|[_ [_ ->]]]; [assumption|].
    rewrite Param_id in Hs. apply select_first_some in Hs as [_ Hs].
    apply removed_In. split; [assumption|]. congruence.
Qed.

(** ** Well-formed stores *)

Lemma StronglySorted_snoc (l : list N) (x : N) :
  StronglySorted N.lt l -> Forall (fun y => y < x) l ->
  StronglySorted N.lt (l ++ [x]).
Proof.
  induction l as [|y l IH]; simpl; intros Hs Hlt.
  - repeat constructor.
  - apply StronglySorted_inv in Hs as [Hs Hy].
    apply Forall_cons_iff in Hlt as [Hyx Hlt].
    constructor; [now apply IH|].
    apply Forall_app. split; [assumption|now repeat constructor].
Qed.

Lemma StronglySorted_removed (n : N) (t : list Book) :
  StronglySorted N.lt (map ID t) ->
  StronglySorted N.lt (map ID (removed n t)).
Proof.
  induction t as [|r t IH]; simpl; intros Hs; [constructor|].
  apply StronglySorted_inv in Hs as [Hs Hr].
  destruct (negb (has_id n r)); simpl; [|now apply IH].
  constructor; [now apply IH|].
  rewrite Forall_forall in *. intros x Hx. apply Hr.
  apply in_map_iff in Hx as [b [<- Hb]]. apply removed_In in Hb as [Hb _].
  now apply in_map.
Qed.

Lemma StronglySorted_lt_NoDup (l : list N) :
  StronglySorted N.lt l -> NoDup l.
Proof.
  induction l as [|x l IH]; intros Hs; [constructor|].
  apply StronglySorted_inv in Hs as [Hs Hx]. constructor; [|now apply IH].
  intros Hin. rewrite Forall_forall in Hx. specialize (Hx x Hin). lia.
Qed.

Lemma assign_non_empty (old new : string) : old <> "" -> assign old new <> "".
Proof.
  intros Hold. unfold assign, is_zero.
  now destruct (String.eqb_spec new "").
Qed.

Lemma wf_store_same (d : DB) :
  wf_store d -> wf_store (mkDB (table d) (sequence d)).
Proof. now destruct d. Qed.

Lemma wf_store_created (d : DB) (t a : string) :
  wf_store d -> t <> "" -> a <> "" ->
  wf_store (mkDB (table d ++ [mkBook (next_id d) t a]) (next_id d)).
Proof.
  intros [Hs Hf] Ht Ha. unfold wf_store. simpl. split.
  - rewrite map_app. simpl. apply StronglySorted_snoc; [assumption|].
    rewrite Forall_forall. intros x Hx.
    apply in_map_iff in Hx as [b [<- Hb]]. now apply next_id_fresh.
  - apply Forall_app. split.
    + eapply Forall_impl; [|exact Hf]. simpl. intros b [H0 [Hle [Hbt Hba]]].
      repeat split; try assumption. unfold next_id. lia.
    + repeat constructor; simpl; try assumption.
      * apply next_id_positive.
      * lia.
Qed.

Lemma wf_store_updated (d : DB) (n : N) (input : UpdateBookInput) :
  wf_store d -> wf_store (mkDB (updated n input (table d)) (sequence d)).
Proof.
  intros [Hs Hf]. unfold wf_store. simpl. split.
  - now rewrite updated_ids.
  - unfold updated. apply Forall_map. eapply Forall_impl; [|exact Hf].
    simpl. intros b [H0 [Hle [Hbt Hba]]].
    destruct (has_id n b); simpl; repeat split; auto using assign_non_empty.
Qed.

Lemma wf_store_removed (d : DB) (n : N) :
  wf_store d -> wf_store (mkDB (removed n (table d)) (sequence d)).
Proof.
  intros [Hs Hf]. unfold wf_store. simpl. split.
  - now apply StronglySorted_removed.
  - rewrite Forall_forall in *. intros b Hb.
    apply removed_In in Hb as [Hb _]. now apply Hf.
Qed.

Lemma handler_keeps_wf (h : HandlerFunc) (c : Context) (w : World) :
  In h handlers -> wf_store (store w) -> wf_store (store (snd (h c w))).
Proof.
  unfold handlers. simpl. intros [<-|[<-|[<-|[<-|[<-|[]]]]]] Hwf.
  - now rewrite FindBooks_store.
  - now rewrite FindBook_store.
  - destruct (CreateBook_cases c w)
      as [[e [_ ->]]|[input [Hb [[_ ->]|[_ ->]]]]]; simpl; try assumption.
    apply bind_create_non_empty in Hb as [Ht Ha].
    now apply wf_store_created.
  - destruct (UpdateBook_cases c w)
      as [->|[b0 [_ [_ [[e [_ ->]]|[input [t' [_ [Ht ->]]]]]]]]];
      simpl; try assumption.
    destruct Ht as [->|[_ [_ ->]]];
      [now apply wf_store_same|now apply wf_store_updated].
  - destruct (DeleteBook_cases c w) as [->|[b0 [t' [_ [_ [Ht ->]]]]]];
      simpl; try assumption.
    destruct Ht as [->|[_ [_ ->]]];
      [now apply wf_store_same|now apply wf_store_removed].
Qed.

Lemma serve_keeps_wf (r : Request) (w : World) :
  wf_store (store w) -> wf_store (store (snd (serve r w))).
Proof.
  intros Hwf.
  destruct (serve_run r w) as [->|[h [ps [Hr ->]]]]; [assumption|].
  apply routed_handler in Hr. now apply handler_keeps_wf.
Qed.

Lemma Run_cons (r : Request) (rs : list Request) (w : World) :
  Run (r :: rs) w =
    (fst (serve r w) :: fst (Run rs (snd (serve r w))),
     snd (Run rs (snd (serve r w)))).
Proof.
  simpl. unfold bind, ret. destruct (serve r w) as [x w1]. simpl.
  now destruct (Run rs w1).
Qed.

(** X9. The invariant of the store.  Starting from a well-formed store
    (rows in strictly increasing id order, ids positive and at most the id
    counter, no empty title or author), any sequence of requests, with any
    bodies and any storage faults, leaves a well-formed store. *)
Theorem Run_keeps_store_well_formed (rs : list Request) (w : World) :
  wf_store (store w) -> wf_store (store (snd (Run rs w))).
Proof.
  revert w. induction rs as [|r rs IH]; intros w Hwf; [assumption|].
  rewrite Run_cons. cbn [snd]. apply IH. now apply serve_keeps_wf.
Qed.

(** X10. Every store the server can reach.  From the empty store, after any
    sequence of requests with any storage faults, the table is in strictly
    increasing id order (so [FindBooks] lists by increasing id and no id
    occurs twice), every id is positive and at most the id counter, and
    every stored title and author is non-empty. *)
Theorem reachable_store_well_formed (rs : list Request) (fs : list bool) :
  wf_store (store (snd (Run rs (mkWorld (mkDB [] 0) fs [])))) /\
  NoDup (ids (snd (Run rs (mkWorld (mkDB [] 0) fs [])))).
Proof.
  assert (Hwf : wf_store (store (snd (Run rs (mkWorld (mkDB [] 0) fs []))))).
  { revert fs. intros fs.
    assert (H0 : wf_store (store (mkWorld (mkDB [] 0) fs []))).
    { unfold wf_store. simpl. split; constructor. }
    revert H0. generalize (mkWorld (mkDB [] 0) fs []). clear fs.
    induction rs as [|r rs IH]; intros w Hwf; [assumption|].
    rewrite Run_cons. cbn [snd]. apply IH. now apply serve_keeps_wf. }
  split; [assumption|].
  apply StronglySorted_lt_NoDup. exact (proj1 Hwf).
Qed.

(** ** Update, again *)

Lemma assign_idem (old new : string) : assign (assign old new) new = assign old new.
Proof. unfold assign. now destruct (is_zero new). Qed.

Lemma merge_idem (b : Book) (input : UpdateBookInput) :
  merge (merge b input) input = merge b input.
Proof. unfold merge. simpl. now rewrite !assign_idem. Qed.

Lemma updated_idem (n : N) (input : UpdateBookInput) (t : list Book) :
  updated n input (updated n input t) = updated n input t.
Proof.
  unfold updated. rewrite map_map. apply map_ext. intros r.
  destruct (has_id n r) eqn:E.
  - unfold has_id in *. simpl. rewrite E. apply merge_idem.
  - now rewrite E.
Qed.

Lemma select_first_updated (p : string) (t : list Book) (book : Book)
      (input : UpdateBookInput) :
  NoDup (map ID t) -> In book t -> parse_id p = Some (ID book) ->
  select_first p (updated (ID book) input t) = Some (merge book input).
Proof.
  intros Hnd Hin Hp.
  change (ID book) with (ID (merge book input)) in Hp.
  apply select_first_stored with (d := mkDB (updated (ID book) input t) 0);
    simpl; [now rewrite updated_ids| |assumption].
  unfold updated. apply in_map_iff. exists book. split; [|assumption].
  unfold has_id. now rewrite N.eqb_refl.
Qed.

(** X12. Update is idempotent and read back.  For a stored book (ids unique
    and positive), a payload the binder accepts and a storage that serves
    the calls: sending the same update a second time gives the same answer
    and leaves the store as the first left it, and [FindBook] on the id
    answers with the updated book. *)
Theorem update_idempotent_and_read_back
        (c : Context) (w : World) (book : Book) (input : UpdateBookInput) :
  NoDup (map ID (table (store w))) ->
  In book (table (store w)) ->
  parse_id (Param c "id") = Some (ID book) ->
  0 < ID book ->
  fault_at 0 w = false -> fault_at 1 w = false ->
  fault_at 2 w = false -> fault_at 3 w = false ->
  ShouldBindJSON_Update (RequestBody c) = Ok input ->
  exists (resp : Response) (w1 w2 w3 : World),
    UpdateBook c w = (resp, w1) /\
    UpdateBook c w1 = (resp, w2) /\
    store w2 = store w1 /\
    FindBook c w1 = (resp, w3) /\
    resp = mkResponse StatusOK (H_data (DBook (merge book input))).
Proof.
  intros Hnd Hin Hp Hpos Hf0 Hf1 Hf2 Hf3 Hb.
  pose proof (select_first_stored _ _ _ Hnd Hin Hp) as Hs.
  pose proof (select_first_updated _ _ _ input Hnd Hin Hp) as Hs1.
  rewrite (UpdateBook_run c w book input Hs Hb Hpos Hf0 Hf1).
  set (w1 := mkWorld _ _ _).
  assert (Hw1 : forall k, fault_at k w1 = fault_at (S (S k)) w).
  { intros k. unfold fault_at, w1. simpl.
    destruct (faults w) as [|f0 [|f1 fs]]; simpl; try reflexivity;
      now destruct k. }
  assert (Hu : UpdateBook c w1 =
      (mkResponse StatusOK (H_data (DBook (merge book input))),
       mkWorld (mkDB (updated (ID book) input (table (store w1)))
                     (sequence (store w1)))
               (tl (tl (faults w1)))
               ((queries w1 ++ [QFirst (Param c "id")])
                  ++ [QUpdates (ID book)]))).
  { rewrite <- (merge_idem book input) at 1.
    apply (UpdateBook_run c w1 (merge book input) input); try assumption.
    - now rewrite Hw1.
    - now rewrite Hw1. }
  eexists _, w1, _, _. split; [reflexivity|]. split; [exact Hu|].
  split; [|split; [|reflexivity]].
  - unfold w1. simpl. now rewrite updated_idem.
  - apply FindBook_stored; [now rewrite Hw1|exact Hs1].
Qed.

(** ** Listing *)


Lemma max_id_bounded (t : list Book) (s : N) :
  Forall (fun b => ID b <= s) t -> max_id t <= s.
Proof.
  unfold max_id. induction 1 as [|b t Hb Ht IH]; simpl; lia.
Qed.

Lemma serve_post_book (ta : string * string) (w : World) :
  fst ta <> "" -> snd ta <> "" -> faults w = [] ->
  Forall (fun b => ID b <= sequence (store w)) (table (store w)) ->
  let book := mkBook (sequence (store w) + 1) (fst ta) (snd ta) in
  serve (post_book ta) w =
    (Some (mkResponse StatusOK (H_data (DBook book))),
     mkWorld (mkDB (table (store w) ++ [book]) (sequence (store w) + 1)) []
             (queries w ++ [QCreate (mkBook 0 (fst ta) (snd ta))])).
Proof.
  intros Ht Ha Hfs Hle. simpl.
  assert (Hn : next_id (store w) = sequence (store w) + 1).
  { apply max_id_bounded in Hle. unfold next_id. lia. }
  change (serve (post_book ta) w)
    with (bind (CreateBook (mkContext [] (body (post_book ta))))
               (fun resp => ret (Some resp)) w).
  unfold bind.
  rewrite (CreateBook_run _ w (mkCreateBookInput (fst ta) (snd ta))).
  - unfold ret. simpl. now rewrite Hn, Hfs.
  - now apply bind_create_title_author.
  - unfold fault_at. now rewrite Hfs.
Qed.

Lemma Run_post_books (tas : list (string * string)) (w : World) :
  Forall (fun ta => fst ta <> "" /\ snd ta <> "") tas ->
  faults w = [] ->
  Forall (fun b => ID b <= sequence (store w)) (table (store w)) ->
  exists w' : World,
    Run (map post_book tas) w =
      (map (fun b => Some (mkResponse StatusOK (H_data (DBook b))))
           (numbered (sequence (store w) + 1) tas), w') /\
    table (store w') =
      (table (store w) ++ numbered (sequence (store w) + 1) tas)%list /\
    faults w' = [].
Proof.
  revert w. induction tas as [|ta tas IH]; intros w Hv Hfs Hle.
  - exists w. simpl. rewrite app_nil_r. auto.
  - apply Forall_cons_iff in Hv as [[Ht Ha] Hv].
    cbn [map]. rewrite Run_cons.
    rewrite (serve_post_book ta w Ht Ha Hfs Hle). cbn [fst snd].
    set (w1 := mkWorld _ _ _).
    destruct (IH w1 Hv eq_refl) as [w' [HR [Htab Hf']]].
    { unfold w1. simpl. apply Forall_app. split.
      - eapply Forall_impl; [|exact Hle]. simpl. intros. lia.
      - repeat constructor. simpl. lia. }
    exists w'. rewrite HR. cbn [fst snd]. split; [reflexivity|].
    split; [|assumption].
    rewrite Htab. unfold w1. simpl. now rewrite <- app_assoc.
Qed.

Lemma numbered_length (k : N) (tas : list (string * string)) :
  length (numbered k tas) = length tas.
Proof.
  revert k. induction tas as [|ta tas IH]; intros k; simpl; [reflexivity|].
  now rewrite IH.
Qed.

(** X14. Creating and listing.  From the empty store with a storage that
    does not fail, creating books from any list of non-empty titles and
    authors answers each create with the book numbered 1, 2, ... in turn,
    and [GET /books] then lists exactly those books, as many as were
    created and in the order of creation; with no create it lists
    nothing. *)
Theorem creates_then_list (tas : list (string * string)) (b : Body) :
  Forall (fun ta => fst ta <> "" /\ snd ta <> "") tas ->
  exists w' : World,
    Run (map post_book tas) empty_world =
      (map (fun bk => Some (mkResponse StatusOK (H_data (DBook bk))))
           (numbered 1 tas), w') /\
    fst (serve (mkRequest GET ["books"] b) w')
      = Some (mkResponse StatusOK (H_data (DBooks (numbered 1 tas)))) /\
    length (numbered 1 tas) = length tas.
Proof.
  intros Hv.
  destruct (Run_post_books tas empty_world Hv eq_refl) as [w' [HR [Htab Hf]]];
    [constructor|].
  exists w'. split; [exact HR|]. split; [|apply numbered_length].
  change (serve (mkRequest GET ["books"] b) w')
    with (bind (FindBooks (mkContext [] b)) (fun resp => ret (Some resp)) w').
  unfold bind. rewrite FindBooks_run. unfold ret, fault_at. cbn [fst].
  rewrite Hf, Htab. reflexivity.
Qed.

(** ** Required fields *)

Lemma decode_lacks_title (struct : string) (ms : list (string * JValue))
      (acc : Fields) :
  lacks "title" ms ->
  f_title (fold_left (decode_member struct) ms acc) = f_title acc.
Proof.
  revert acc. induction ms as [|[k v] ms IH]; intros acc Hl; [reflexivity|].
  apply Forall_cons_iff in Hl as [Hk Hl]. simpl in Hk.
  cbn [fold_left]. rewrite (IH _ Hl). unfold decode_member. rewrite Hk.
  destruct (key_is "author" k); [|reflexivity]. now destruct v.
Qed.

Lemma decode_lacks_author (struct : string) (ms : list (string * JValue))
      (acc : Fields) :
  lacks "author" ms ->
  f_author (fold_left (decode_member struct) ms acc) = f_author acc.
Proof.
  revert acc. induction ms as [|[k v] ms IH]; intros acc Hl; [reflexivity|].
  apply Forall_cons_iff in Hl as [Hk Hl]. simpl in Hk.
  cbn [fold_left]. rewrite (IH _ Hl). unfold decode_member. rewrite Hk.
  destruct (key_is "title" k); [|reflexivity]. now destruct v.
Qed.

(** X15. Both fields are required on create.  A create request whose JSON
    object has no [title] member, or no [author] member, is answered 400
    with an error message, and the world (table, id counter, pending
    faults, log of storage calls) is untouched, whatever else the object
    holds. *)
Theorem create_requires_title_and_author
        (ps : list (string * string)) (ms : list (string * JValue))
        (w : World) :
  lacks "title" ms \/ lacks "author" ms ->
  exists e : string,
    CreateBook (mkContext ps (Members ms)) w
      = (mkResponse StatusBadRequest (H_error e), w).
Proof.
  intros Hl.
  assert (Hb : exists e, ShouldBindJSON_Create (Members ms) = Err e).
  { unfold ShouldBindJSON_Create, decode.
    pose proof (decode_lacks_title "CreateBookInput" ms (mkFields "" "" None))
      as Ht.
    pose proof (decode_lacks_author "CreateBookInput" ms (mkFields "" "" None))
      as Ha.
    destruct (fold_left _ ms _) as [t a [e|]]; simpl in *; [now eexists|].
    unfold validate_required. simpl.
    destruct Hl as [Hl|Hl].
    - rewrite (Ht Hl). simpl. destruct (is_zero a); simpl; now eexists.
    - rewrite (Ha Hl). destruct (is_zero t); simpl; now eexists. }
  destruct Hb as [e Hb]. exists e. now apply CreateBook_invalid.
Qed.

(** ** Requests no route takes *)

(** X16. A request outside the route table.  A request whose method and path
    are not one of the five registered pairs (another method, another
    path, an empty id segment, a further segment) runs no handler: the
    program gives no answer of its own and the world is untouched. *)
Theorem unregistered_request_ignored (r : Request) (w : World) :
  ~ registered (method r) (path r) -> serve r w = (None, w).
Proof.
  intros Hn. destruct (serve_run r w) as [E|[h [ps [Hr _]]]]; [exact E|].
  exfalso. apply Hn. apply lookup_route_inv in Hr. unfold registered.
  destruct Hr as [[-> [_ [[-> _]|[-> _]]]]
                 |[id [Hid [-> [_ [[-> _]|[[-> _]|[-> _]]]]]]]]; eauto 8.
Qed.

(** ** Create and delete *)




End Engine.

(* ===================================================================== *)
(** * Worked instances

    The theorems above hold for every comparison [numeric_eq].  The
    instances below run the handlers on the worlds of the walk-through,
    with a storage that matches no text outside integer notation; none of
    them consults it. *)
(* ===================================================================== *)

(** C3, as stated, fails for update: on a stored book and a body that does
    not parse, the lookup by id has been issued by the time the body is
    rejected. *)
Lemma update_does_not_validate_first :
  ShouldBindJSON_Update (Unparseable "EOF") = Err "EOF" /\
  (UpdateBook exact_only) (with_id "1" (Unparseable "EOF")) one_book_world
    = (mkResponse StatusBadRequest (H_error "EOF"),
       mkWorld (store one_book_world) [] [QFirst "1"]) /\
  ~ validates_first ShouldBindJSON_Update (UpdateBook exact_only).
Proof.
  split; [reflexivity|]. split; [reflexivity|].
  intros H.
  specialize (H (with_id "1" (Unparseable "EOF")) one_book_world).
  simpl in H. assert (E : @nil Query = [QFirst "1"]); [|discriminate E].
  symmetry. apply H. now exists "EOF".
Qed.

(** [create_then_find_by_id] on the walk-through. *)
Lemma create_then_find_by_id_witness :
  exists (book : Book) (w1 w2 : World),
    CreateBook (mkContext [] start_with_why) empty_world
      = (mkResponse StatusOK (H_data (DBook book)), w1) /\
    Title book = "Start with Why" /\
    Author book = "Simon Sinek" /\
    Title book <> "" /\ Author book <> "" /\
    (FindBook exact_only) (with_id (show_id (ID book)) (Members [])) w1
      = (mkResponse StatusOK (H_data (DBook book)), w2).
Proof.
  apply (create_then_find_by_id exact_only (mkContext [] start_with_why) empty_world
           (mkCreateBookInput "Start with Why" "Simon Sinek") (Members []));
    reflexivity.
Defined.

(** [update_applies_non_empty_fields] on the walk-through. *)
Lemma update_applies_non_empty_fields_witness :
  exists (book' : Book) (w' : World),
    (UpdateBook exact_only) (with_id "1" the_infinite_game) one_book_world
      = (mkResponse StatusOK (H_data (DBook book')), w') /\
    ID book' = 1 /\
    Title book' = "The Infinite Game" /\
    Author book' = "Simon Sinek" /\
    table (store w') =
      map (fun r => if ID r =? 1 then book' else r)
          [mkBook 1 "Start with Why" "Simon Sinek"] /\
    (forall r, In r [mkBook 1 "Start with Why" "Simon Sinek"] ->
               r <> mkBook 1 "Start with Why" "Simon Sinek" ->
               In r (table (store w'))) /\
    sequence (store w') = 1.
Proof.
  apply (update_applies_non_empty_fields exact_only
           (with_id "1" the_infinite_game) one_book_world
           (mkBook 1 "Start with Why" "Simon Sinek")
           [("title", JString "The Infinite Game")]).
  - simpl. constructor; [simpl; tauto|constructor].
  - simpl. auto.
  - reflexivity.
  - reflexivity.
  - reflexivity.
  - reflexivity.
  - reflexivity.
  - repeat constructor.
Defined.

(** [empty_update_is_noop] on the walk-through. *)
Lemma empty_update_is_noop_witness :
  exists w' : World,
    (UpdateBook exact_only) (with_id "1" (Members [])) one_book_world
      = (mkResponse StatusOK
           (H_data (DBook (mkBook 1 "Start with Why" "Simon Sinek"))), w') /\
    store w' = store one_book_world.
Proof.
  apply (empty_update_is_noop exact_only (with_id "1" (Members [])) one_book_world
           (mkBook 1 "Start with Why" "Simon Sinek")).
  - simpl. constructor; [simpl; tauto|constructor].
  - simpl. auto.
  - reflexivity.
  - reflexivity.
  - reflexivity.
Defined.

(** [validation_and_storage_order] on the walk-through. *)
Lemma validation_and_storage_order_witness :
  CreateBook (with_id "1" (Unparseable "EOF")) one_book_world
    = (mkResponse StatusBadRequest (H_error "EOF"), one_book_world) /\
  exists (resp : Response) (w' : World),
    (UpdateBook exact_only) (with_id "1" (Unparseable "EOF")) one_book_world = (resp, w') /\
    status resp = StatusBadRequest /\
    queries w' = (queries one_book_world ++ [QFirst "1"])%list /\
    store w' = store one_book_world.
Proof.
  destruct (validation_and_storage_order exact_only
              (with_id "1" (Unparseable "EOF")) one_book_world "EOF")
    as [Hc Hu].
  split; [apply Hc|apply Hu]; reflexivity.
Defined.

(** [unknown_id_is_record_not_found] on the walk-through. *)
Lemma unknown_id_is_record_not_found_witness :
  exists w' : World,
    invoke (ConnectDatabase false false (store one_book_world))
           (DeleteBook exact_only) (with_id "abc" (Members [])) one_book_world
      = (Answered (mkResponse 400 (H_error "Record not found!")), w') /\
    (DeleteBook exact_only) (with_id "abc" (Members [])) one_book_world
      = (mkResponse 400 (H_error "Record not found!"), w') /\
    store w' = store one_book_world.
Proof.
  apply (unknown_id_is_record_not_found exact_only
           false false (store one_book_world)
           (with_id "abc" (Members [])) one_book_world).
  - reflexivity.
  - left. left. intros a Ha. simpl in Ha.
    destruct Ha as [<-|[<-|[<-|[]]]]; reflexivity.
  - simpl. auto.
Defined.

(** [update_checks_existence_before_body] on the walk-through. *)
Lemma update_checks_existence_before_body_witness :
  exists w' : World,
    (UpdateBook exact_only) (with_id "2" (Unparseable "EOF")) one_book_world
      = (mkResponse StatusBadRequest (H_error "Record not found!"), w') /\
    queries w' = (queries one_book_world ++ [QFirst "2"])%list /\
    (forall e, ShouldBindJSON_Update (Unparseable "EOF") = Err e ->
               e <> "Record not found!" ->
               fst (UpdateBook exact_only (with_id "2" (Unparseable "EOF")) one_book_world)
               <> mkResponse StatusBadRequest (H_error e)).
Proof.
  apply (update_checks_existence_before_body exact_only "2" (Unparseable "EOF")
           one_book_world).
  right. left. exists 2. split; [reflexivity|].
  simpl. intros b [<-|[]]. discriminate.
Defined.

(** [delete_then_not_found] on the walk-through. *)
Lemma delete_then_not_found_witness :
  (exists w1 w2 w3 : World,
     (DeleteBook exact_only) (with_id "1" (Members [])) one_book_world
       = (mkResponse StatusOK (H_data DTrue), w1) /\
     (forall r, In r (table (store w1)) <->
                In r (table (store one_book_world)) /\ ID r <> 1) /\
     ~ In (mkBook 1 "Start with Why" "Simon Sinek") (table (store w1)) /\
     (FindBook exact_only) (with_id "1" (Members [])) w1
       = (mkResponse StatusBadRequest not_found, w2) /\
     (DeleteBook exact_only) (with_id "1" (Members [])) w1
       = (mkResponse StatusBadRequest not_found, w3) /\
     store w3 = store w1) /\
  (exists w3' : World,
     (DeleteBook exact_only) (with_id "7" (Members [])) empty_world
       = (mkResponse StatusBadRequest not_found, w3') /\
     store w3' = store empty_world).
Proof.
  apply (delete_then_not_found exact_only
           (with_id "1" (Members [])) one_book_world
           (mkBook 1 "Start with Why" "Simon Sinek")
           (with_id "7" (Members [])) empty_world).
  - simpl. auto.
  - reflexivity.
  - reflexivity.
  - reflexivity.
  - reflexivity.
  - left. exists 7. split; [reflexivity|]. simpl. tauto.
Defined.

(** [ids_generated_immutable_unique] on the walk-through. *)
Lemma ids_generated_immutable_unique_witness :
  (exists (book : Book) (w1 : World),
     CreateBook (mkContext []
                   (Members (("id", JNumber "42")
                               :: [("title", JString "Start with Why");
                                   ("author", JString "Simon Sinek")])))
                one_book_world
       = (mkResponse StatusOK (H_data (DBook book)), w1) /\
     CreateBook (mkContext [] start_with_why) one_book_world
       = (mkResponse StatusOK (H_data (DBook book)), w1) /\
     ID book = N.max 1 (max_id (table (store one_book_world))) + 1 /\
     0 < ID book /\
     (forall r, In r (table (store one_book_world)) -> ID r < ID book) /\
     table (store w1) = (table (store one_book_world) ++ [book])%list) /\
  ids (snd (UpdateBook exact_only (with_id "1" the_infinite_game) one_book_world))
    = ids one_book_world /\
  NoDup (ids (snd (serve exact_only (mkRequest DELETE ["books"; "1"] (Members []))
                         one_book_world))).
Proof.
  apply (ids_generated_immutable_unique exact_only
           [] (JNumber "42")
           [("title", JString "Start with Why");
            ("author", JString "Simon Sinek")]
           (mkCreateBookInput "Start with Why" "Simon Sinek") one_book_world
           (with_id "1" the_infinite_game) one_book_world
           (mkRequest DELETE ["books"; "1"] (Members [])) one_book_world).
  - reflexivity.
  - reflexivity.
  - unfold ids. simpl. constructor; [simpl; tauto|constructor].
Defined.

(** [routing_sound] on the walk-through. *)
Lemma routing_sound_witness :
  (["books"; "1"] = ["books"] /\ [("id", "1")] = [] /\
   ((DELETE = GET /\ (DeleteBook exact_only) = FindBooks) \/
    (DELETE = POST /\ (DeleteBook exact_only) = CreateBook))) \/
  (exists id, id <> "" /\ ["books"; "1"] = ["books"; id] /\
              [("id", "1")] = [("id", id)] /\
     ((DELETE = GET /\ (DeleteBook exact_only) = (FindBook exact_only)) \/
      (DELETE = PUT /\ (DeleteBook exact_only) = (UpdateBook exact_only)) \/
      (DELETE = DELETE /\ (DeleteBook exact_only) = (DeleteBook exact_only)))).
Proof.
  apply (routing_sound exact_only DELETE ["books"; "1"] (DeleteBook exact_only) [("id", "1")]).
  reflexivity.
Defined.

(** [routing_complete] on the walk-through. *)
Lemma routing_complete_witness :
  lookup_route (routes exact_only) GET ["books"] = Some (FindBooks, []) /\
  lookup_route (routes exact_only) POST ["books"] = Some (CreateBook, []) /\
  lookup_route (routes exact_only) GET ["books"; "abc"] = Some (FindBook exact_only, [("id", "abc")]) /\
  lookup_route (routes exact_only) PUT ["books"; "abc"] = Some (UpdateBook exact_only, [("id", "abc")]) /\
  lookup_route (routes exact_only) DELETE ["books"; "abc"]
    = Some (DeleteBook exact_only, [("id", "abc")]) /\
  Param (mkContext [("id", "abc")] (Members [])) "id" = "abc".
Proof.
  apply (routing_complete exact_only "abc" (Members [])). discriminate.
Defined.

(** [served_response_enveloped] on the walk-through. *)
Lemma served_response_enveloped_witness :
  enveloped (mkResponse StatusBadRequest (H_error "EOF")).
Proof.
  apply (served_response_enveloped exact_only
           (mkRequest PUT ["books"; "1"] (Unparseable "EOF")) one_book_world
           (mkResponse StatusBadRequest (H_error "EOF"))
           (mkWorld (store one_book_world) [] [QFirst "1"])).
  reflexivity.
Defined.

(** [error_response_keeps_store] on the walk-through. *)
Lemma error_response_keeps_store_witness :
  store (mkWorld (store one_book_world) [] [QFirst "7"]) = store one_book_world /\
  (queries (mkWorld (store one_book_world) [] [QFirst "7"])
     = queries one_book_world \/
   exists p, queries (mkWorld (store one_book_world) [] [QFirst "7"])
             = (queries one_book_world ++ [QFirst p])%list).
Proof.
  apply (error_response_keeps_store exact_only
           (mkRequest DELETE ["books"; "7"] (Members [])) one_book_world
           (mkResponse StatusBadRequest not_found)
           (mkWorld (store one_book_world) [] [QFirst "7"]));
    reflexivity.
Defined.

(** [FindBook_sound] on the walk-through. *)
Lemma FindBook_sound_witness :
  In (mkBook 1 "Start with Why" "Simon Sinek") (table (store one_book_world)) /\
  (id_matches exact_only) (Param (with_id " +01" (Members [])) "id") 1 = true /\
  ~ malformed (Param (with_id " +01" (Members [])) "id") /\
  (forall n, parse_id (Param (with_id " +01" (Members [])) "id") = Some n ->
             1 = n) /\
  looked_up " +01" one_book_world
    = looked_up (Param (with_id " +01" (Members [])) "id") one_book_world.
Proof.
  apply (FindBook_sound exact_only (with_id " +01" (Members [])) one_book_world
           (mkBook 1 "Start with Why" "Simon Sinek")
           (looked_up " +01" one_book_world)).
  reflexivity.
Defined.

(** [other_books_untouched] on the walk-through. *)
Lemma other_books_untouched_witness :
  In (mkBook 1 "Start with Why" "Simon Sinek")
     (table (store (snd (serve exact_only (mkRequest DELETE ["books"; "2"] (Members []))
                               one_book_world)))).
Proof.
  apply (other_books_untouched exact_only
           (mkRequest DELETE ["books"; "2"] (Members [])) one_book_world
           (mkBook 1 "Start with Why" "Simon Sinek")).
  - simpl. auto.
  - intros p [= <-]. reflexivity.
Defined.

(** [Run_keeps_store_well_formed] on the walk-through. *)
Lemma Run_keeps_store_well_formed_witness :
  wf_store (store (snd (Run exact_only [mkRequest PUT ["books"; "1"] the_infinite_game;
                             post_book ("Leaders Eat Last", "Simon Sinek");
                             mkRequest DELETE ["books"; "1"] (Members [])]
                            one_book_world))).
Proof.
  apply (Run_keeps_store_well_formed exact_only
           [mkRequest PUT ["books"; "1"] the_infinite_game;
            post_book ("Leaders Eat Last", "Simon Sinek");
            mkRequest DELETE ["books"; "1"] (Members [])]
           one_book_world).
  unfold wf_store. simpl. split.
  - repeat constructor.
  - repeat constructor; simpl; try lia; discriminate.
Defined.

(** [update_idempotent_and_read_back] on the walk-through. *)
Lemma update_idempotent_and_read_back_witness :
  exists (resp : Response) (w1 w2 w3 : World),
    (UpdateBook exact_only) (with_id "1" the_infinite_game) one_book_world = (resp, w1) /\
    (UpdateBook exact_only) (with_id "1" the_infinite_game) w1 = (resp, w2) /\
    store w2 = store w1 /\
    (FindBook exact_only) (with_id "1" the_infinite_game) w1 = (resp, w3) /\
    resp = mkResponse StatusOK
             (H_data (DBook (merge (mkBook 1 "Start with Why" "Simon Sinek")
                                   (mkUpdateBookInput "The Infinite Game" "")))).
Proof.
  apply (update_idempotent_and_read_back exact_only
           (with_id "1" the_infinite_game) one_book_world
           (mkBook 1 "Start with Why" "Simon Sinek")
           (mkUpdateBookInput "The Infinite Game" "")).
  - simpl. constructor; [simpl; tauto|constructor].
  - simpl. auto.
  - reflexivity.
  - reflexivity.
  - reflexivity.
  - reflexivity.
  - reflexivity.
  - reflexivity.
  - reflexivity.
Defined.

(** [creates_then_list] on the walk-through. *)
Lemma creates_then_list_witness :
  exists w' : World,
    (Run exact_only) (map post_book [("Start with Why", "Simon Sinek");
                        ("The Infinite Game", "Simon Sinek")]) empty_world =
      (map (fun bk => Some (mkResponse StatusOK (H_data (DBook bk))))
           (numbered 1 [("Start with Why", "Simon Sinek");
                        ("The Infinite Game", "Simon Sinek")]), w') /\
    fst (serve exact_only (mkRequest GET ["books"] (Members [])) w')
      = Some (mkResponse StatusOK
                (H_data (DBooks (numbered 1
                   [("Start with Why", "Simon Sinek");
                    ("The Infinite Game", "Simon Sinek")])))) /\
    length (numbered 1 [("Start with Why", "Simon Sinek");
                        ("The Infinite Game", "Simon Sinek")])
    = length [("Start with Why", "Simon Sinek");
              ("The Infinite Game", "Simon Sinek")].
Proof.
  apply (creates_then_list exact_only [("Start with Why", "Simon Sinek");
                            ("The Infinite Game", "Simon Sinek")] (Members [])).
  repeat constructor; simpl; discriminate.
Defined.

(** [create_requires_title_and_author] on the walk-through. *)
Lemma create_requires_title_and_author_witness :
  exists e : string,
    CreateBook (mkContext [] (Members [("title", JString "Start with Why")]))
               one_book_world
      = (mkResponse StatusBadRequest (H_error e), one_book_world).
Proof.
  apply (create_requires_title_and_author
           [] [("title", JString "Start with Why")] one_book_world).
  right. repeat constructor.
Defined.

(** [unregistered_request_ignored] on the walk-through. *)
Lemma unregistered_request_ignored_witness :
  (serve exact_only) (mkRequest POST ["books"; "1"] start_with_why) one_book_world
  = (None, one_book_world).
Proof.
  apply (unregistered_request_ignored exact_only
           (mkRequest POST ["books"; "1"] start_with_why) one_book_world).
  unfold registered. simpl.
  intros [[E _]|[id [_ [_ [E|[E|E]]]]]]; discriminate E.
Defined.

